(** * Verification of [scripts/backfill_stock_prices.py]

    The script fetches the trailing daily OHLCV history of a ticker from
    Alpha Vantage ([fetch_history_for_symbol]) and upserts it into a
    Snowflake table by a delete-then-insert loop
    ([insert_history_into_snowflake]).

    The embedding is shallow: Python values that come out of [resp.json()]
    are an inductive type, exceptions are a result type, the effects of
    the script (reading [os.environ], the HTTP request, [print], the
    connector calls) are threaded through a small state-and-exception
    monad, and the warehouse is a finite map from table names to row
    lists. *)

From Stdlib Require Import ZArith Floats Ascii String.
From stdpp Require Import gmap strings list sorting.

Open Scope Z_scope.

(** ** Exceptions and results *)

Inductive exn :=
| KeyError (key : string)
| TypeError
| AttributeError
| ValueError
| OverflowError
| JSONDecodeError
| RequestException
| UnicodeEncodeError
| BrokenPipeError
| UnboundLocalError (name : string)
| DatabaseError (errno : Z)
| ProgrammingError
| IntegrityError.

Inductive result (A : Type) :=
| Ok (a : A)
| Raise (e : exn).
Arguments Ok {A} a.
Arguments Raise {A} e.

Definition is_ok {A} (r : result A) : bool :=
  match r with Ok _ => true | Raise _ => false end.

Definition rbind {A B} (r : result A) (k : A -> result B) : result B :=
  match r with
  | Ok a => k a
  | Raise e => Raise e
  end.

(** [x ← r; k] on results. *)
Global Instance result_ret : MRet result := @Ok.
Global Instance result_bind : MBind result := λ A B k r, rbind r k.

(** ** Python values, as [json.loads] builds them

    A [dict] is an association list in insertion order, which is the order
    [.items()] iterates in. *)

#[warnings="-register-all"]
Inductive pyval :=
| PNone
| PBool (b : bool)
| PInt (z : Z)
| PFloat (f : float)
| PStr (s : string)
| PList (l : list pyval)
| PDict (d : list (string * pyval)).

Fixpoint dict_get (k : string) (d : list (string * pyval)) : option pyval :=
  match d with
  | [] => None
  | (k', v) :: d' => if String.eqb k' k then Some v else dict_get k d'
  end.

Definition is_nil {A} (l : list A) : bool :=
  match l with [] => true | _ :: _ => false end.

(** [bool(v)]: the truth value that [not] and [or] look at. *)
Definition py_truthy (v : pyval) : bool :=
  match v with
  | PNone => false
  | PBool b => b
  | PInt z => negb (z =? 0)
  | PFloat f => negb (PrimFloat.eqb f 0%float)
  | PStr s => negb (String.eqb s "")
  | PList l => negb (is_nil l)
  | PDict d => negb (is_nil d)
  end.

(** [a or b] on an optional left operand ([dict.get] gives [None] for a
    missing key, which is falsy). *)
Definition py_or (a : pyval) (b : pyval) : pyval :=
  if py_truthy a then a else b.

Fixpoint is_prefix (p s : string) : bool :=
  match p, s with
  | EmptyString, _ => true
  | String a p', String b s' => Ascii.eqb a b && is_prefix p' s'
  | String _ _, EmptyString => false
  end.

Fixpoint is_substring (p s : string) : bool :=
  is_prefix p s ||
  match s with
  | EmptyString => false
  | String _ s' => is_substring p s'
  end.

Definition is_pstr (k : string) (v : pyval) : bool :=
  match v with PStr s => String.eqb s k | _ => false end.

(** [k in v] for a string [k]. *)
Definition py_contains (k : string) (v : pyval) : result bool :=
  match v with
  | PDict d => Ok (bool_decide (is_Some (dict_get k d)))
  | PList l => Ok (existsb (is_pstr k) l)
  | PStr s => Ok (is_substring k s)
  | _ => Raise TypeError
  end.

(** [v[k]] for a string [k]. *)
Definition py_getitem (v : pyval) (k : string) : result pyval :=
  match v with
  | PDict d => match dict_get k d with Some x => Ok x | None => Raise (KeyError k) end
  | _ => Raise TypeError
  end.

(** [v.get(k)] *)
Definition py_get (v : pyval) (k : string) : result pyval :=
  match v with
  | PDict d => Ok (default PNone (dict_get k d))
  | _ => Raise AttributeError
  end.

(** [list(v.keys())] *)
Definition py_keys (v : pyval) : result (list string) :=
  match v with
  | PDict d => Ok (d.*1)
  | _ => Raise AttributeError
  end.

(** [v.items()] *)
Definition py_items (v : pyval) : result (list (string * pyval)) :=
  match v with
  | PDict d => Ok d
  | _ => Raise AttributeError
  end.

(** ** Calendar dates ([datetime.date]) *)

Record date := Date { year : Z; month : Z; day : Z }.

Global Instance date_eq_dec : EqDecision date.
Proof. solve_decision. Defined.

(** [d1 < d2] compares (year, month, day) lexicographically. *)
Definition date_ltb (d1 d2 : date) : bool :=
  (year d1 <? year d2) ||
  ((year d1 =? year d2) &&
   ((month d1 <? month d2) ||
    ((month d1 =? month d2) && (day d1 <? day d2)))).

Definition date_le (d1 d2 : date) : Prop := date_ltb d2 d1 = false.

Definition is_leap (y : Z) : bool :=
  (y mod 4 =? 0) && (negb (y mod 100 =? 0) || (y mod 400 =? 0)).

Definition days_in_month (y m : Z) : Z :=
  if m =? 2 then (if is_leap y then 29 else 28)
  else if (m =? 4) || (m =? 6) || (m =? 9) || (m =? 11) then 30
  else 31.

(** The constructor [datetime.date(y, m, d)], which rejects what is not a
    day of the proleptic Gregorian calendar between years 1 and 9999. *)
Definition mk_date (y m d : Z) : result date :=
  if (1 <=? y) && (y <=? 9999) && (1 <=? m) && (m <=? 12)
     && (1 <=? d) && (d <=? days_in_month y m)
  then Ok (Date y m d) else Raise ValueError.

(** ** The daily price record

    The 7-tuple [(as_of_date, symbol, o, h, l, c, v)] the fetcher builds
    and the writer unpacks. *)

Record price_record := PriceRecord {
  as_of_date : date;
  symbol : string;
  open_price : float;
  high_price : float;
  low_price : float;
  close_price : float;
  volume : Z
}.

(** The primary key of the table: the pair (AS_OF_DATE, SYMBOL). *)
Definition key : Type := date * string.
Definition key_of (r : price_record) : key := (as_of_date r, symbol r).

(** ** The library functions the fetcher calls

    [datetime.strptime(s, "%Y-%m-%d").date()], [float(x)] and [int(x)] are
    CPython's, not the script's: the script is verified against the
    interface, and [CPython] below gives the instance the concrete
    scenarios run on. The instance follows CPython on strings of ASCII
    characters; digits and blanks outside ASCII, which CPython also
    accepts, and the interpreter's limit on the length of integer literals
    are left out. *)

Class PyLib := {
  strptime_ymd : string -> result date;
  py_float : pyval -> result float;
  py_int : pyval -> result Z
}.

Module CPython.

Definition digit_val (a : ascii) : option Z :=
  let n := Z.of_nat (nat_of_ascii a) in
  if (48 <=? n) && (n <=? 57) then Some (n - 48) else None.

Definition is_digit (a : ascii) : bool :=
  match digit_val a with Some _ => true | None => false end.

(** The blanks [float] and [int] strip from both ends of a string of
    ASCII characters: tab, line feed, vertical tab, form feed, carriage
    return and space. The separators 28 to 31, which [str.isspace] also
    accepts, are not among them. *)
Definition is_space (a : ascii) : bool :=
  let n := Z.of_nat (nat_of_ascii a) in
  ((9 <=? n) && (n <=? 13)) || (n =? 32).

Fixpoint lstrip (s : list ascii) : list ascii :=
  match s with
  | a :: s' => if is_space a then lstrip s' else s
  | [] => []
  end.

Definition strip (s : list ascii) : list ascii :=
  rev (lstrip (rev (lstrip s))).

Definition lower (a : ascii) : ascii :=
  let n := nat_of_ascii a in
  if (65 <=? n)%nat && (n <=? 90)%nat then ascii_of_nat (n + 32) else a.

(** The value of a digit sequence, most significant digit first. *)
Definition digits_value (ds : list Z) : Z :=
  fold_left (λ acc d, 10 * acc + d) ds 0.

(** [digitpart ::= digit (["_"] digit)*]: the longest such prefix of [s],
    as its digits, and what follows it. *)
Fixpoint digitpart (s : list ascii) : list Z * list ascii :=
  match s with
  | a :: s' =>
    match digit_val a with
    | Some d =>
      match s' with
      | "_"%char :: s'' =>
        match s'' with
        | b :: _ =>
          if is_digit b
          then let '(ds, r) := digitpart s'' in (d :: ds, r)
          else ([d], s')
        | [] => ([d], s')
        end
      | _ => let '(ds, r) := digitpart s' in (d :: ds, r)
      end
    | None => ([], s)
    end
  | [] => ([], [])
  end.

Definition take_sign (s : list ascii) : bool * list ascii :=
  match s with
  | "-"%char :: r => (true, r)
  | "+"%char :: r => (false, r)
  | _ => (false, s)
  end.

(** *** [datetime.strptime(s, "%Y-%m-%d").date()]

    [_strptime] matches the regular expression
    [(\d\d\d\d)-(1[0-2]|0[1-9]|[1-9])-(3[01]|[12]\d|0[1-9]|[1-9]| [1-9])]
    at the start of the string, raises [ValueError] when it does not
    match or when text remains after the match, and then builds the date. *)

Definition take_year (s : list ascii) : option (Z * list ascii) :=
  match s with
  | a1 :: a2 :: a3 :: a4 :: r =>
    match digit_val a1, digit_val a2, digit_val a3, digit_val a4 with
    | Some d1, Some d2, Some d3, Some d4 =>
      Some (digits_value [d1; d2; d3; d4], r)
    | _, _, _, _ => None
    end
  | _ => None
  end.

Definition one_to_nine (a : ascii) : option Z :=
  match digit_val a with
  | Some d => if 1 <=? d then Some d else None
  | None => None
  end.

Definition take_month (s : list ascii) : option (Z * list ascii) :=
  match s with
  | [] => None
  | a :: r =>
    let single := (λ d, (d, r)) <$> one_to_nine a in
    match digit_val a, r with
    | Some 1, b :: r' =>
      match digit_val b with
      | Some d => if d <=? 2 then Some (10 + d, r') else single
      | None => single
      end
    | Some 0, b :: r' => (λ d, (d, r')) <$> one_to_nine b
    | _, _ => single
    end
  end.

Definition take_day (s : list ascii) : option (Z * list ascii) :=
  match s with
  | [] => None
  | a :: r =>
    let single := (λ d, (d, r)) <$> one_to_nine a in
    match r with
    | [] => single
    | b :: r' =>
      if Ascii.eqb a " " then (λ d, (d, r')) <$> one_to_nine b
      else
        match digit_val a, digit_val b with
        | Some 3, Some d => if d <=? 1 then Some (30 + d, r') else single
        | Some 1, Some d => Some (10 + d, r')
        | Some 2, Some d => Some (20 + d, r')
        | Some 0, _ => (λ d, (d, r')) <$> one_to_nine b
        | _, _ => single
        end
    end
  end.

Definition take_dash (s : list ascii) : option (list ascii) :=
  match s with
  | "-"%char :: r => Some r
  | _ => None
  end.

Definition strptime_ymd (s : string) : result date :=
  match
    '(y, r1) ← take_year (list_ascii_of_string s);
    r2 ← take_dash r1;
    '(m, r3) ← take_month r2;
    r4 ← take_dash r3;
    '(d, r5) ← take_day r4;
    if is_nil r5 then Some (y, m, d) else None
  with
  | Some (y, m, d) => mk_date y m d
  | None => Raise ValueError
  end.

(** *** [int(x)] *)

(** [int(s)] for a string: blanks stripped, an optional sign, then one
    [digitpart] and nothing else. *)
Definition int_of_string (s : string) : result Z :=
  let '(neg, r) := take_sign (strip (list_ascii_of_string s)) in
  match digitpart r with
  | (d :: ds, []) =>
    let n := digits_value (d :: ds) in Ok (if neg then - n else n)
  | _ => Raise ValueError
  end.

(** [int(f)] for a float: truncation towards zero. *)
Definition int_of_float (f : float) : result Z :=
  match Prim2SF f with
  | S754_zero _ => Ok 0
  | S754_infinity _ => Raise OverflowError
  | S754_nan => Raise ValueError
  | S754_finite neg m e =>
    let n := if 0 <=? e then Z.pos m * 2 ^ e else Z.pos m / 2 ^ (- e) in
    Ok (if neg then - n else n)
  end.

Definition py_int (x : pyval) : result Z :=
  match x with
  | PInt z => Ok z
  | PBool b => Ok (if b then 1 else 0)
  | PFloat f => int_of_float f
  | PStr s => int_of_string s
  | _ => Raise TypeError
  end.

(** *** [float(x)] *)

(** The binary64 number nearest to [(-1)^neg * m * 10^e10] (ties to
    even), infinite when that is out of range. *)
Definition float_of_decimal (neg : bool) (m : Z) (e10 : Z) : float :=
  SF2Prim
    match m, e10 with
    | Zpos p, Zneg q =>
      SFdiv 53 1024 (S754_finite neg p 0) (S754_finite false (10 ^ q) 0)
    | _, _ =>
      binary_normalize 53 1024 ((if neg then - m else m) * 10 ^ e10) 0 neg
    end.

(** [float(n)] for an integer, which overflows instead of rounding to
    infinity. *)
Definition float_of_int (n : Z) : result float :=
  match binary_normalize 53 1024 n 0 false with
  | S754_infinity _ => Raise OverflowError
  | x => Ok (SF2Prim x)
  end.

(** [exponent ::= ("e" | "E") [sign] digitpart], zero when absent. *)
Definition take_exponent (s : list ascii) : option (Z * list ascii) :=
  match s with
  | a :: r =>
    if Ascii.eqb (lower a) "e" then
      let '(neg, r1) := take_sign r in
      match digitpart r1 with
      | (d :: ds, r2) =>
        let n := digits_value (d :: ds) in Some (if neg then - n else n, r2)
      | ([], _) => None
      end
    else Some (0, s)
  | [] => Some (0, [])
  end.

(** [number ::= [digitpart] "." digitpart | digitpart ["."]]:
    the digits before and after the point. *)
Definition take_number (s : list ascii) : option (list Z * list Z * list ascii) :=
  let '(ip, r) := digitpart s in
  match r with
  | "."%char :: r1 =>
    let '(fp, r2) := digitpart r1 in
    if is_nil ip && is_nil fp then None else Some (ip, fp, r2)
  | _ => if is_nil ip then None else Some (ip, [], r)
  end.

Definition float_of_string (s : string) : result float :=
  let '(neg, r) := take_sign (strip (list_ascii_of_string s)) in
  let word := string_of_list_ascii (map lower r) in
  if String.eqb word "inf" || String.eqb word "infinity"
  then Ok (if neg then neg_infinity else infinity)
  else if String.eqb word "nan" then Ok nan
  else
    match
      '(ip, fp, r1) ← take_number r;
      '(e, r2) ← take_exponent r1;
      if is_nil r2 then Some (ip, fp, e) else None
    with
    | Some (ip, fp, e) =>
      Ok (float_of_decimal neg (digits_value (ip ++ fp)) (e - Z.of_nat (length fp)))
    | None => Raise ValueError
    end.

Definition py_float (x : pyval) : result float :=
  match x with
  | PFloat f => Ok f
  | PInt z => float_of_int z
  | PBool b => Ok (if b then 1%float else 0%float)
  | PStr s => float_of_string s
  | _ => Raise TypeError
  end.

End CPython.

#[export] Instance cpython : PyLib := {|
  strptime_ymd := CPython.strptime_ymd;
  py_float := CPython.py_float;
  py_int := CPython.py_int
|}.

(** ** What the script talks to *)

(** A [requests.Response]: the status line and what [resp.json()] gives
    ([Raise JSONDecodeError] for a body that is not JSON). *)
Record response := Response {
  status_code : Z;
  json : result pyval
}.

(** [resp.ok]: [raise_for_status] raises for 4xx and 5xx only. *)
Definition ok (resp : response) : bool :=
  negb ((400 <=? status_code resp) && (status_code resp <? 600)).

(** A row of STOCK_PRICES: the seven inserted columns and FETCHED_AT, which
    the store fills with its current time. *)
Record stored_row := StoredRow {
  row_values : price_record;
  fetched_at : Z
}.

Definition row_key (r : stored_row) : key := key_of (row_values r).

Record store := Store {
  schemas : gset string;
  tables : gmap string (list stored_row)
}.

(** The statements the writer sends through [cs.execute]. *)
Inductive stmt :=
| CreateSchemaIfNotExists (name : string)
| CreateTableIfNotExists (fq_table : string)
| DeleteFrom (fq_table : string) (d : date) (s : string)
| InsertInto (fq_table : string) (rec : price_record).

Record connect_args := ConnectArgs {
  account : string;
  user : string;
  password : string;
  role : string;
  warehouse : string;
  database : string;
  schema : string
}.

(** The calls on [snowflake.connector] objects, in the order made. *)
Inductive db_call :=
| Connect (args : connect_args)
| Cursor
| Execute (s : stmt)
| Commit
| CursorClose
| ConnectionClose.

(** What [print] writes: the message, by its f-string, and the values
    interpolated in it. *)
Inductive log_line :=
| Warn429 (symbol : string)
| WarnHttp (symbol : string) (status : Z)
| WarnUnexpected (symbol : string) (keys : list string)
| WarnMessage (msg : pyval)
| InfoFetching (symbol : string)
| InfoGot (rows : nat)
| InfoDone (total : nat).

(** What a run cannot change: the process environment, the provider, the
    stream behind [sys.stdout] (which [print] calls fail, by the number of
    lines written before and the line: [UnicodeEncodeError] when the
    encoding of the stream has no code for a character of the text, as for
    the warning sign of the three warnings outside a Unicode encoding or
    for a lone surrogate that came in with the payload;
    [BrokenPipeError] when the reader is gone), and the behaviour of the
    warehouse (which connector calls fail, by their position in the run;
    its clock; whether it enforces the primary key). *)
Record environment := Environment {
  environ : gmap string string;
  requests_get : string → Z → result response;
  stdout_fault : nat → log_line → option exn;
  db_fault : nat → option exn;
  db_clock : nat → Z;
  pk_enforced : bool
}.

(** What a run changes or leaves behind. *)
Record world := World {
  stdout : list log_line;
  requests : list string;
  db_calls : list db_call;
  slept : Z;
  db : store
}.

(** ** The monad of the script: state and exceptions *)

Definition M (A : Type) : Type := world → result A * world.

Definition ret {A} (a : A) : M A := λ w, (Ok a, w).

Definition raise {A} (e : exn) : M A := λ w, (Raise e, w).

Definition bind {A B} (m : M A) (k : A → M B) : M B :=
  λ w, match m w with
       | (Ok a, w') => k a w'
       | (Raise e, w') => (Raise e, w')
       end.

Definition lift {A} (r : result A) : M A := λ w, (r, w).

Declare Scope py_scope.
Delimit Scope py_scope with py.
Notation "x <- m ;; k" := (bind m (λ x, k))
  (at level 100, m at next level, right associativity) : py_scope.
Notation "m ;; k" := (bind m (λ _, k))
  (at level 100, right associativity) : py_scope.
Open Scope py_scope.

(** [try: cs = acquire; body(cs)  finally: fin]: the [finally] block runs
    on every way out of the [try] block, sees the local [cs] bound only if
    [acquire] returned, and an exception it raises replaces the outcome of
    the [try] block. *)
Definition try_finally {L A} (acquire : M L) (body : L → M A)
    (fin : option L → M unit) : M A :=
  λ w,
    let '(r, cs, w1) :=
      match acquire w with
      | (Ok cs, w0) => let '(r, w1) := body cs w0 in (r, Some cs, w1)
      | (Raise e, w0) => (Raise e, None, w0)
      end in
    match fin cs w1 with
    | (Ok _, w2) => (r, w2)
    | (Raise e, w2) => (Raise e, w2)
    end.

(** Reading a local variable that may not have been assigned. *)
Definition local {L} (name : string) (x : option L) : M L :=
  match x with
  | Some a => ret a
  | None => raise (UnboundLocalError name)
  end.

(** [for x in xs: f(x)] *)
Fixpoint for_each {A} (xs : list A) (f : A → M unit) : M unit :=
  match xs with
  | [] => ret tt
  | x :: xs' => f x ;; for_each xs' f
  end.

(** [for x in xs: out.append(f(x))], without effects other than the
    exception that ends it. *)
Fixpoint collect {A B} (f : A → result B) (xs : list A) : result (list B) :=
  match xs with
  | [] => Ok []
  | x :: xs' => rbind (f x) (λ b, rbind (collect f xs') (λ bs, Ok (b :: bs)))
  end.

(** ** [list.sort(key=...)]: a stable sort that compares keys with [<] *)

Section Sort.
Context {A K : Type} (ltb : K → K → bool) (key : A → K).

(** [x] goes after the elements that are not greater than it. *)
Fixpoint insert_sorted (x : A) (xs : list A) : list A :=
  match xs with
  | [] => [x]
  | y :: ys =>
    if ltb (key x) (key y) then x :: y :: ys else y :: insert_sorted x ys
  end.

Definition sort_by (xs : list A) : list A :=
  fold_left (λ acc x, insert_sorted x acc) xs [].
End Sort.

(** ** The warehouse *)

Definition set_table (t : string) (rows : list stored_row) (st : store) : store :=
  Store (schemas st) (<[t := rows]> (tables st)).

(** What a statement does when the warehouse accepts it. [now] is the
    store's CURRENT_TIMESTAMP(); [enforce] says whether the primary-key
    constraint is checked on insert. *)
Definition exec_stmt (now : Z) (enforce : bool) (s : stmt) (st : store)
    : result store :=
  match s with
  | CreateSchemaIfNotExists name =>
    Ok (Store ({[name]} ∪ schemas st) (tables st))
  | CreateTableIfNotExists t =>
    match tables st !! t with
    | Some _ => Ok st
    | None => Ok (set_table t [] st)
    end
  | DeleteFrom t d s =>
    match tables st !! t with
    | Some rows => Ok (set_table t (filter (λ r, row_key r ≠ (d, s)) rows) st)
    | None => Raise ProgrammingError
    end
  | InsertInto t rec =>
    match tables st !! t with
    | Some rows =>
      if enforce && bool_decide (key_of rec ∈ row_key <$> rows)
      then Raise IntegrityError
      else Ok (set_table t (rows ++ [StoredRow rec now]) st)
    | None => Raise ProgrammingError
    end
  end.

Inductive connection := Conn (args : connect_args).
Inductive cursor := Cur (ctx : connection).

(** ** The script *)

(** The request URL [fetch_history_for_symbol] builds. *)
Definition query_url (symbol api_key : string) : string :=
  "https://www.alphavantage.co/query"
  +:+ "?function=TIME_SERIES_DAILY&symbol=" +:+ symbol
  +:+ "&outputsize=compact&apikey=" +:+ api_key.

Section Script.
Context {lib : PyLib} (E : environment).

(** [os.environ[name]] *)
Definition getenv (name : string) : M string :=
  match environ E !! name with
  | Some x => ret x
  | None => raise (KeyError name)
  end.

(** [os.environ.get(name, dflt)] *)
Definition getenv_default (name dflt : string) : string :=
  default dflt (environ E !! name).

(** [print(line)]: the line is written, unless the stream refuses it;
    then the exception is raised and nothing of the line is written. *)
Definition print (line : log_line) : M unit :=
  λ w,
    match stdout_fault E (length (stdout w)) line with
    | Some e => (Raise e, w)
    | None =>
      (Ok tt, World (stdout w ++ [line]) (requests w) (db_calls w) (slept w) (db w))
    end.

(** [requests.get(url, timeout=timeout)] *)
Definition http_get (url : string) (timeout : Z) : M response :=
  λ w, (requests_get E url timeout,
        World (stdout w) (requests w ++ [url]) (db_calls w) (slept w) (db w)).

(** [time.sleep(secs)] *)
Definition sleep (secs : Z) : M unit :=
  λ w, (Ok tt, World (stdout w) (requests w) (db_calls w) (slept w + secs) (db w)).

(** A call on the connector: it is recorded, and it raises when the
    warehouse fails it; an accepted [execute] changes the tables. *)
Definition db_do (call : db_call) : M unit :=
  λ w,
    let n := length (db_calls w) in
    let w' := World (stdout w) (requests w) (db_calls w ++ [call]) (slept w) (db w) in
    match db_fault E n with
    | Some e => (Raise e, w')
    | None =>
      match call with
      | Execute s =>
        match exec_stmt (db_clock E n) (pk_enforced E) s (db w) with
        | Ok st => (Ok tt, World (stdout w') (requests w') (db_calls w') (slept w') st)
        | Raise e => (Raise e, w')
        end
      | _ => (Ok tt, w')
      end
    end.

Definition connect (args : connect_args) : M connection :=
  db_do (Connect args) ;; ret (Conn args).

Definition new_cursor (ctx : connection) : M cursor :=
  db_do Cursor ;; ret (Cur ctx).

Definition execute (cs : cursor) (s : stmt) : M unit := db_do (Execute s).
Definition commit (ctx : connection) : M unit := db_do Commit.
Definition cursor_close (cs : cursor) : M unit := db_do CursorClose.
Definition connection_close (ctx : connection) : M unit := db_do ConnectionClose.

(** One turn of the loop over [ts.items()]. *)
Definition parse_entry (symbol : string) (item : string * pyval)
    : result price_record :=
  let '(date_str, vals) := item in
  as_of_date ← strptime_ymd date_str;
  o ← py_getitem vals "1. open" ≫= py_float;
  h ← py_getitem vals "2. high" ≫= py_float;
  l ← py_getitem vals "3. low" ≫= py_float;
  c ← py_getitem vals "4. close" ≫= py_float;
  v ← py_getitem vals "5. volume" ≫= py_int;
  Ok (PriceRecord as_of_date symbol o h l c v).

Definition fetch_history_for_symbol (symbol : string) : M (list price_record) :=
  api_key <- getenv "ALPHAVANTAGE_API_KEY" ;;
  let url := query_url symbol api_key in
  resp <- http_get url 20 ;;
  if status_code resp =? 429 then
    print (Warn429 symbol) ;;
    ret []
  else if negb (ok resp) then
    print (WarnHttp symbol (status_code resp)) ;;
    ret []
  else
    data <- lift (json resp) ;;
    present <- lift (py_contains "Time Series (Daily)" data) ;;
    if negb present then
      keys <- lift (py_keys data) ;;
      print (WarnUnexpected symbol keys) ;;
      info <- lift (py_get data "Information") ;;
      msg <- (if py_truthy info then ret info
              else note <- lift (py_get data "Note") ;; ret (py_or note data)) ;;
      print (WarnMessage msg) ;;
      ret []
    else
      ts <- lift (py_getitem data "Time Series (Daily)") ;;
      items <- lift (py_items ts) ;;
      records <- lift (collect (parse_entry symbol) items) ;;
      ret (sort_by date_ltb as_of_date records).

Definition insert_history_into_snowflake (records : list price_record) : M unit :=
  if is_nil records then ret tt
  else
    account <- getenv "SNOWFLAKE_ACCOUNT" ;;
    user <- getenv "SNOWFLAKE_USER" ;;
    password <- getenv "SNOWFLAKE_PASSWORD" ;;
    role <- getenv "SNOWFLAKE_ROLE" ;;
    warehouse <- getenv "SNOWFLAKE_WH" ;;
    database <- getenv "SNOWFLAKE_DB" ;;
    let schema := getenv_default "SNOWFLAKE_RAW_SCHEMA" "RAW" in
    ctx <- connect (ConnectArgs account user password role warehouse database schema) ;;
    try_finally (new_cursor ctx)
      (λ cs,
         execute cs (CreateSchemaIfNotExists (database +:+ "." +:+ schema)) ;;
         let fq_table := database +:+ "." +:+ schema +:+ ".STOCK_PRICES" in
         execute cs (CreateTableIfNotExists fq_table) ;;
         for_each records (λ rec,
           execute cs (DeleteFrom fq_table (as_of_date rec) (symbol rec)) ;;
           execute cs (InsertInto fq_table rec)) ;;
         commit ctx)
      (λ cs,
         cs <- local "cs" cs ;;
         cursor_close cs ;;
         connection_close ctx).

Definition TICKERS : list string :=
  ["CRWV"; "USAR"; "VOO"; "ROBO"; "LEU"; "NVDA"; "NFLX"].

Fixpoint main_loop (tickers : list string) (total : nat) : M nat :=
  match tickers with
  | [] => ret total
  | symbol :: tickers' =>
    print (InfoFetching symbol) ;;
    records <- fetch_history_for_symbol symbol ;;
    print (InfoGot (length records)) ;;
    insert_history_into_snowflake records ;;
    sleep 15 ;;
    main_loop tickers' (total + length records)%nat
  end.

Definition main : M unit :=
  total <- main_loop TICKERS 0%nat ;;
  print (InfoDone total).

End Script.

(** ** Reading a run

    The definitions below are not part of the script: they name what the
    theorems speak about. *)

(** What [fetch_history_for_symbol] does once the key is read and the
    provider has answered, by the four cases of the response: the outcome
    and the lines it prints, when [print] writes them all. *)
Definition on_response {lib : PyLib} (symbol : string) (resp : response)
    : result (list price_record) * list log_line :=
  if status_code resp =? 429 then (Ok [], [Warn429 symbol])
  else if negb (ok resp) then (Ok [], [WarnHttp symbol (status_code resp)])
  else
    match json resp with
    | Raise e => (Raise e, [])
    | Ok (PDict d) =>
      match dict_get "Time Series (Daily)" d with
      | None =>
        (Ok [],
         [WarnUnexpected symbol (d.*1);
          WarnMessage
            (py_or (py_or (default PNone (dict_get "Information" d))
                          (default PNone (dict_get "Note" d)))
                   (PDict d))])
      | Some (PDict ts) =>
        match collect (parse_entry symbol) ts with
        | Ok records => (Ok (sort_by date_ltb as_of_date records), [])
        | Raise e => (Raise e, [])
        end
      | Some _ => (Raise AttributeError, [])
      end
    | Ok (PNone | PBool _ | PInt _ | PFloat _) => (Raise TypeError, [])
    | Ok (PList l) =>
      (Raise (if existsb (is_pstr "Time Series (Daily)") l
              then TypeError else AttributeError), [])
    | Ok (PStr s) =>
      (Raise (if is_substring "Time Series (Daily)" s
              then TypeError else AttributeError), [])
    end.

(** What becomes of the calls [print(line)] for the lines [lines], when
    [n] lines were written before: the lines written, and the exception of
    the first call that fails, which ends them. *)
Fixpoint printed (fault : nat → log_line → option exn) (n : nat)
    (lines : list log_line) : list log_line * option exn :=
  match lines with
  | [] => ([], None)
  | line :: lines' =>
    match fault n line with
    | Some e => ([], Some e)
    | None => let '(out, r) := printed fault (S n) lines' in (line :: out, r)
    end
  end.

(** The lines whose text starts with the warning sign U+26A0 U+FE0F: the
    three warnings of lines 29, 33 and 39. The message of line 40 and the
    lines of the driver are ASCII but for the values put into them. *)
Definition has_warning_sign (line : log_line) : bool :=
  match line with
  | Warn429 _ | WarnHttp _ _ | WarnUnexpected _ _ => true
  | WarnMessage _ | InfoFetching _ | InfoGot _ | InfoDone _ => false
  end.

(** No connector call fails for a reason of the warehouse's own. *)
Definition fault_free (E : environment) : Prop :=
  ∀ n, db_fault E n = None.

(** The six variables [insert_history_into_snowflake] requires are set. *)
Definition configured (E : environment) : Prop :=
  Forall (λ name, is_Some (environ E !! name))
    ["SNOWFLAKE_ACCOUNT"; "SNOWFLAKE_USER"; "SNOWFLAKE_PASSWORD";
     "SNOWFLAKE_ROLE"; "SNOWFLAKE_WH"; "SNOWFLAKE_DB"].

Definition env_or_empty (E : environment) (name : string) : string :=
  default "" (environ E !! name).

Definition connect_args_of (E : environment) : connect_args :=
  ConnectArgs (env_or_empty E "SNOWFLAKE_ACCOUNT") (env_or_empty E "SNOWFLAKE_USER")
    (env_or_empty E "SNOWFLAKE_PASSWORD") (env_or_empty E "SNOWFLAKE_ROLE")
    (env_or_empty E "SNOWFLAKE_WH") (env_or_empty E "SNOWFLAKE_DB")
    (getenv_default E "SNOWFLAKE_RAW_SCHEMA" "RAW").

Definition schema_of (E : environment) : string :=
  database (connect_args_of E) +:+ "." +:+ schema (connect_args_of E).

Definition fq_table_of (E : environment) : string :=
  database (connect_args_of E) +:+ "." +:+ schema (connect_args_of E)
  +:+ ".STOCK_PRICES".

(** The rows of STOCK_PRICES, none when the table does not exist yet. *)
Definition stock_prices (E : environment) (w : world) : list stored_row :=
  default [] (tables (db w) !! fq_table_of E).

Definition rows_with (k : key) (rows : list stored_row) : list stored_row :=
  filter (λ r, row_key r = k) rows.

Definition records_with (k : key) (records : list price_record) : list price_record :=
  filter (λ r, key_of r = k) records.

(** At most one row per (AS_OF_DATE, SYMBOL) pair in table [t]. *)
Definition unique_keys (t : string) (st : store) : Prop :=
  ∀ rows, tables st !! t = Some rows → NoDup (row_key <$> rows).

(** One turn of the writer's loop, on the rows. *)
Definition upsert_row (now : Z) (rec : price_record) (rows : list stored_row)
    : list stored_row :=
  filter (λ r, row_key r ≠ key_of rec) rows ++ [StoredRow rec now].

(** The whole loop on the rows, when its first call is call number [n]. *)
Fixpoint upsert_rows (clock : nat → Z) (n : nat) (records : list price_record)
    (rows : list stored_row) : list stored_row :=
  match records with
  | [] => rows
  | rec :: records' =>
    upsert_rows clock (n + 2) records' (upsert_row (clock (n + 1)%nat) rec rows)
  end.

Fixpoint loop_calls (fq_table : string) (records : list price_record) : list db_call :=
  match records with
  | [] => []
  | rec :: records' =>
    Execute (DeleteFrom fq_table (as_of_date rec) (symbol rec))
    :: Execute (InsertInto fq_table rec)
    :: loop_calls fq_table records'
  end.

(** The connector calls of a run in which none fails. *)
Definition upsert_calls (E : environment) (records : list price_record) : list db_call :=
  [Connect (connect_args_of E); Cursor;
   Execute (CreateSchemaIfNotExists (schema_of E));
   Execute (CreateTableIfNotExists (fq_table_of E))]
  ++ loop_calls (fq_table_of E) records
  ++ [Commit; CursorClose; ConnectionClose].

(** The calls of the [try] block when none fails. *)
Definition try_calls (E : environment) (records : list price_record) : list db_call :=
  [Execute (CreateSchemaIfNotExists (schema_of E));
   Execute (CreateTableIfNotExists (fq_table_of E))]
  ++ loop_calls (fq_table_of E) records
  ++ [Commit].

(** Among the [len] calls numbered from [n] on, the first the warehouse
    fails: its position among them and the exception. *)
Fixpoint first_fault (fault : nat → option exn) (n len : nat) : option (nat * exn) :=
  match len with
  | O => None
  | S len' =>
    match fault n with
    | Some e => Some (O, e)
    | None => (λ '(i, e), (S i, e)) <$> first_fault fault (S n) len'
    end
  end.

(** From a store that satisfies [Pre], [m] makes the calls [calls] in
    order up to and including the first the warehouse fails, and the
    exception of that call is its outcome; when the warehouse fails none,
    it makes them all and returns, with a store that satisfies [Post]. *)
Definition stops_at_first_fault (E : environment) (Pre : store → Prop)
    (m : M unit) (calls : list db_call) (Post : store → Prop) : Prop :=
  ∀ w, Pre (db w) →
    match first_fault (db_fault E) (length (db_calls w)) (length calls) with
    | Some (i, e) =>
      (m w).1 = Raise e ∧ db_calls (m w).2 = db_calls w ++ take (S i) calls
    | None =>
      (m w).1 = Ok tt ∧ db_calls (m w).2 = db_calls w ++ calls ∧ Post (db (m w).2)
    end.

(** Table [t] exists. *)
Definition has_table (t : string) (st : store) : Prop :=
  is_Some (tables st !! t).

(** Table [t] exists and holds no row under the key [k]. *)
Definition has_table_without (t : string) (k : key) (st : store) : Prop :=
  ∃ rows, tables st !! t = Some rows ∧ k ∉ row_key <$> rows.

(** [m] makes the calls [calls], in order, and stops at the first that
    raises: it makes all of them when it returns. *)
Definition sends (m : M unit) (calls : list db_call) : Prop :=
  ∀ w, ∃ k,
    (k ≤ length calls)%nat ∧
    db_calls (m w).2 = db_calls w ++ take k calls ∧
    ((m w).1 = Ok tt → k = length calls).

(** In a sequence of connector calls, every insert comes right after the
    delete of its own key in the same table. *)
Definition insert_follows_delete (calls : list db_call) : Prop :=
  ∀ i fq rec,
    calls !! i = Some (Execute (InsertInto fq rec)) →
    ∃ j, i = S j ∧
      calls !! j = Some (Execute (DeleteFrom fq (as_of_date rec) (symbol rec))).

Definition is_insert (call : db_call) : Prop :=
  ∃ fq rec, call = Execute (InsertInto fq rec).

(** [x] is not after [y] for a sort that compares keys with [ltb]: the
    sort never finds [key y < key x]. *)
Definition key_le {A K} (ltb : K → K → bool) (key : A → K) (x y : A) : Prop :=
  ltb (key y) (key x) = false.

(** A property of the tables, as a property of the world. *)
Definition on_db (I : store → Prop) (w : world) : Prop := I (db w).

(** [m] keeps the property [I] of the world, however it ends. *)
Definition preserves {A} (I : world → Prop) (m : M A) : Prop :=
  ∀ w, I w → I (m w).2.

(** ** Reading a run, continued *)

(** The variables the writer reads with [os.environ[...]], in the order it
    reads them. *)
Definition required_vars : list string :=
  ["SNOWFLAKE_ACCOUNT"; "SNOWFLAKE_USER"; "SNOWFLAKE_PASSWORD";
   "SNOWFLAKE_ROLE"; "SNOWFLAKE_WH"; "SNOWFLAKE_DB"].

(** The provider answers the request for [sym] with a success whose JSON
    object carries the time series [ts]. *)
Definition serves (E : environment) (sym : string) (ts : list (string * pyval))
    : Prop :=
  ∃ api_key resp d,
    environ E !! "ALPHAVANTAGE_API_KEY" = Some api_key ∧
    requests_get E (query_url sym api_key) 20 = Ok resp ∧
    status_code resp ≠ 429 ∧ ok resp = true ∧
    json resp = Ok (PDict d) ∧
    dict_get "Time Series (Daily)" d = Some (PDict ts).

(** The rows of table [t], none when it does not exist. *)
Definition table_rows (t : string) (st : store) : list stored_row :=
  default [] (tables st !! t).

(** The writer's loop on the inserted columns alone. *)
Definition upsert_values (records vals : list price_record) : list price_record :=
  fold_left (λ acc rec, filter (λ r, key_of r ≠ key_of rec) acc ++ [rec])
    records vals.

(** For each key of the list, its last record, in the order of those last
    occurrences. *)
Fixpoint last_per_key (records : list price_record) : list price_record :=
  match records with
  | [] => []
  | rec :: records' =>
    if decide (key_of rec ∈ key_of <$> records') then last_per_key records'
    else rec :: last_per_key records'
  end.

(** The rows the "Got n rows" lines of a log add up to. *)
Fixpoint got_rows (lines : list log_line) : nat :=
  match lines with
  | [] => 0
  | InfoGot n :: lines' => n + got_rows lines'
  | _ :: lines' => got_rows lines'
  end.

(** A statement writes rows only under the keys [K]. *)
Definition stmt_within (K : list key) (s : stmt) : Prop :=
  match s with
  | DeleteFrom _ d sym => (d, sym) ∈ K
  | InsertInto _ rec => key_of rec ∈ K
  | _ => True
  end.

(** The rows of every table whose key is outside [K] are those of [st0]. *)
Definition same_outside (K : list key) (st0 st : store) : Prop :=
  ∀ t, filter (λ r, row_key r ∉ K) (table_rows t st)
       = filter (λ r, row_key r ∉ K) (table_rows t st0).

(** The world differs from [w0] in the warehouse only, where the calls
    made so far extend those of [w0]. *)
Definition warehouse_only (w0 w : world) : Prop :=
  stdout w = stdout w0 ∧ requests w = requests w0 ∧ slept w = slept w0 ∧
  ∃ calls, db_calls w = db_calls w0 ++ calls.

(** Projections of a world that was just built. *)
Ltac world_simpl := cbn [stdout requests db_calls slept db schemas tables].

(** ** Concrete runs *)

Module Scenario.

Definition env_vars : gmap string string :=
  list_to_map
    [("ALPHAVANTAGE_API_KEY", "demo"); ("SNOWFLAKE_ACCOUNT", "acct");
     ("SNOWFLAKE_USER", "etl"); ("SNOWFLAKE_PASSWORD", "secret");
     ("SNOWFLAKE_ROLE", "LOADER"); ("SNOWFLAKE_WH", "WH");
     ("SNOWFLAKE_DB", "DBT_DEMO")].

Definition no_fault : nat → option exn := λ _, None.

(** A stream that takes every line: a UTF-8 [sys.stdout] and text without
    lone surrogates. *)
Definition any_text : nat → log_line → option exn := λ _ _, None.

(** A [sys.stdout] in a one-byte encoding such as cp1252, which has no
    code for the warning sign; the values of the scenarios are ASCII. *)
Definition one_byte : nat → log_line → option exn :=
  λ _ line, if has_warning_sign line then Some UnicodeEncodeError else None.

(** Strings hold the UTF-8 bytes of their text. A lone surrogate (U+D800
    to U+DFFF, as [json.loads] leaves it from an escape such as [\ud800])
    has no encoding; it is spelt as the three bytes a lenient encoder
    gives it: 237, then a byte from 160 on, then one more. *)
Fixpoint has_surrogate (s : string) : bool :=
  match s with
  | String a (String b _ as s') =>
    ((nat_of_ascii a =? 237)%nat && (160 <=? nat_of_ascii b)%nat)
    || has_surrogate s'
  | _ => false
  end.

Definition lone_surrogate : string :=
  String (ascii_of_nat 237) (String (ascii_of_nat 160)
    (String (ascii_of_nat 128) EmptyString)).

(** A UTF-8 [sys.stdout]: it refuses a line whose text holds a lone
    surrogate. The values a line puts in as text are the symbol and a
    message that is a string; the keys and any other message go through
    [repr], which escapes surrogates. *)
Definition utf8 : nat → log_line → option exn :=
  λ _ line,
    let refused :=
      match line with
      | Warn429 sym | WarnHttp sym _ | WarnUnexpected sym _ | InfoFetching sym =>
        has_surrogate sym
      | WarnMessage (PStr s) => has_surrogate s
      | WarnMessage _ | InfoGot _ | InfoDone _ => false
      end in
    if refused then Some UnicodeEncodeError else None.

Definition clock : nat → Z := Z.of_nat.

(** A provider that answers every request with [resp], a stream that
    takes every line, and a warehouse that enforces the primary key and
    fails the calls [fault] selects. *)
Definition env_with (resp : response) (fault : nat → option exn) : environment :=
  Environment env_vars (λ _ _, Ok resp) any_text fault clock true.

(** The same provider, with the stream [out] behind [sys.stdout] and a
    warehouse that fails no call. *)
Definition env_printing_to (out : nat → log_line → option exn) (resp : response)
    : environment :=
  Environment env_vars (λ _ _, Ok resp) out no_fault clock true.

Definition fresh : world := World [] [] [] 0 (Store ∅ ∅).

Definition daily (entries : list (string * pyval)) : pyval :=
  PDict [("Meta Data", PDict [("2. Symbol", PStr "ABC")]);
         ("Time Series (Daily)", PDict entries)].

Definition bar (o h l c v : string) : pyval :=
  PDict [("1. open", PStr o); ("2. high", PStr h); ("3. low", PStr l);
         ("4. close", PStr c); ("5. volume", PStr v)].

(** The payload of the end-to-end scenario. *)
Definition abc_entries : list (string * pyval) :=
  [("2024-01-02", bar "10" "12" "9" "11" "1000")].

Definition abc_record : price_record :=
  PriceRecord (Date 2024 1 2) "ABC" 10 12 9 11 1000.

(** Three days, newest first, as the provider sends them. *)
Definition newest_first : list (string * pyval) :=
  [("2024-01-04", bar "13" "14" "12" "13.5" "900");
   ("2024-01-03", bar "11" "13" "10" "12.5" "800");
   ("2024-01-02", bar "10" "12" "9" "11" "1000")].

Definition rate_limited : response := Response 429 (Raise JSONDecodeError).

Definition not_json : response := Response 200 (Raise JSONDecodeError).

Definition bad_date : response :=
  Response 200 (Ok (daily [("01/02/2024", bar "10" "12" "9" "11" "1000")])).

Definition bad_number : response :=
  Response 200 (Ok (daily [("2024-01-02", bar "n/a" "12" "9" "11" "1000")])).

Definition rate_note : response :=
  Response 200 (Ok (PDict [("Note", PStr "Thank you for using Alpha Vantage!")])).

(** A JSON object without the series, whose "Information" string holds a
    lone surrogate. *)
Definition surrogate_note : response :=
  Response 200
    (Ok (PDict [("Information", PStr (lone_surrogate +:+ " premium endpoint"))])).

(** The environment of the end-to-end scenario. *)
Definition abc_env : environment :=
  env_with (Response 200 (Ok (daily abc_entries))) no_fault.

(** An older quote for the key of [abc_record], and a second symbol on
    the same date. *)
Definition abc_stale : price_record :=
  PriceRecord (Date 2024 1 2) "ABC" 9.5 10 9 9.75 400.

Definition xyz_record : price_record :=
  PriceRecord (Date 2024 1 2) "XYZ" 20 22 19 21 500.

(** The warehouse lets the connection through and fails [ctx.cursor()]. *)
Definition cursor_fails : nat → option exn :=
  λ n, match n with 1%nat => Some (DatabaseError 250001) | _ => None end.

(** [newest_first], as the fetcher returns it. *)
Definition oldest_first : list price_record :=
  [PriceRecord (Date 2024 1 2) "ABC" 10 12 9 11 1000;
   PriceRecord (Date 2024 1 3) "ABC" 11 13 10 12.5 800;
   PriceRecord (Date 2024 1 4) "ABC" 13 14 12 13.5 900].

Definition forbidden : response := Response 403 (Raise JSONDecodeError).

(** A provider that cannot be reached. *)
Definition unreachable : environment :=
  Environment env_vars (λ _ _, Raise RequestException) any_text no_fault clock true.

(** No variable is set. *)
Definition unset : environment :=
  Environment ∅ (λ _ _, Ok rate_limited) any_text no_fault clock true.

(** The days of [newest_first], oldest first. *)
Definition oldest_first_entries : list (string * pyval) :=
  [("2024-01-02", bar "10" "12" "9" "11" "1000");
   ("2024-01-03", bar "11" "13" "10" "12.5" "800");
   ("2024-01-04", bar "13" "14" "12" "13.5" "900")].

(** One day under two spellings of its date. *)
Definition two_spellings : list (string * pyval) :=
  [("2024-01-03", bar "11" "13" "10" "12.5" "800");
   ("2024-1-2", bar "10" "12" "9" "11" "1000");
   ("2024-01-02", bar "9.5" "10" "9" "9.75" "400")].

(** The warehouse refuses the connection. *)
Definition connect_fails : nat → option exn :=
  λ n, match n with 0%nat => Some (DatabaseError 250001) | _ => None end.

(** The warehouse fails the sixth call of a run from [fresh]: the insert of
    the first record. *)
Definition insert_fails : nat → option exn :=
  λ n, match n with 5%nat => Some (DatabaseError 100072) | _ => None end.

(** The warehouse fails the tenth call of a run from [fresh] with two
    records: [cs.close()], after the commit. *)
Definition close_fails : nat → option exn :=
  λ n, match n with 9%nat => Some (DatabaseError 250002) | _ => None end.

(** The required variables but the role. *)
Definition no_role : environment :=
  Environment (delete "SNOWFLAKE_ROLE" env_vars) (λ _ _, Ok rate_limited)
    any_text no_fault clock true.

(** A table that already holds a stale row for "ABC" and a row for another
    symbol. *)
Definition seeded : world :=
  World [] [] [] 0
    (Store {["DBT_DEMO.RAW"]}
       {["DBT_DEMO.RAW.STOCK_PRICES" :=
           [StoredRow abc_stale (-2); StoredRow xyz_record (-1)]]}).

End Scenario.

(** * Properties *)

(** ** Lists *)

Lemma filter_none {A} (P : A → Prop) `{!∀ x, Decision (P x)} (xs : list A) :
  Forall (λ x, ¬ P x) xs → filter P xs = [].
Proof.
  induction 1 as [|x xs Hx _ IH]; [done|]. by rewrite filter_cons_False.
Qed.

(** ** The order on dates *)

Lemma date_ltb_lex (d1 d2 : date) :
  date_ltb d1 d2 = true ↔
  year d1 < year d2 ∨
  (year d1 = year d2 ∧
   (month d1 < month d2 ∨ (month d1 = month d2 ∧ day d1 < day d2))).
Proof.
  unfold date_ltb.
  rewrite !orb_true_iff, !andb_true_iff, !orb_true_iff, !andb_true_iff.
  rewrite !Z.ltb_lt, !Z.eqb_eq. tauto.
Qed.

Lemma date_le_lex (d1 d2 : date) :
  date_le d1 d2 ↔
  year d1 < year d2 ∨
  (year d1 = year d2 ∧
   (month d1 < month d2 ∨ (month d1 = month d2 ∧ day d1 ≤ day d2))).
Proof.
  unfold date_le. rewrite <- not_true_iff_false, date_ltb_lex. lia.
Qed.

Lemma date_le_refl : Reflexive date_le.
Proof. intros d. apply date_le_lex. lia. Qed.

Lemma date_le_trans : Transitive date_le.
Proof. intros d1 d2 d3. rewrite !date_le_lex. lia. Qed.

Lemma date_ltb_le (d1 d2 : date) : date_ltb d1 d2 = true → date_le d1 d2.
Proof. rewrite date_ltb_lex, date_le_lex. lia. Qed.

Lemma date_le_antisym (d1 d2 : date) : date_le d1 d2 → date_le d2 d1 → d1 = d2.
Proof.
  rewrite !date_le_lex. destruct d1, d2; simpl. intros. f_equal; lia.
Qed.

(** ** The sort *)

Section SortFacts.
Context {A K : Type} (ltb : K → K → bool) (key : A → K).

Hypothesis ltb_asym : ∀ a b, ltb a b = true → ltb b a = false.

Lemma insert_sorted_perm (x : A) (xs : list A) :
  insert_sorted ltb key x xs ≡ₚ x :: xs.
Proof.
  induction xs as [|y ys IH]; simpl; [done|].
  destruct (ltb (key x) (key y)); [done|].
  rewrite IH. apply Permutation_swap.
Qed.

Lemma sort_by_perm_acc (xs acc : list A) :
  fold_left (λ acc x, insert_sorted ltb key x acc) xs acc ≡ₚ acc ++ xs.
Proof.
  revert acc. induction xs as [|x xs IH]; intros acc; simpl.
  - by rewrite app_nil_r.
  - rewrite IH, insert_sorted_perm. simpl. apply Permutation_middle.
Qed.

Lemma sort_by_perm (xs : list A) : sort_by ltb key xs ≡ₚ xs.
Proof. unfold sort_by. by rewrite sort_by_perm_acc. Qed.

Lemma insert_sorted_hd (x y : A) (ys : list A) :
  key_le ltb key y x → HdRel (key_le ltb key) y ys →
  HdRel (key_le ltb key) y (insert_sorted ltb key x ys).
Proof.
  intros Hyx Hys. destruct ys as [|z zs]; simpl.
  - by constructor.
  - destruct (ltb (key x) (key z)); constructor; [done|].
    by inversion Hys.
Qed.

Lemma insert_sorted_Sorted (x : A) (xs : list A) :
  Sorted (key_le ltb key) xs →
  Sorted (key_le ltb key) (insert_sorted ltb key x xs).
Proof.
  induction 1 as [|y ys Hys IH Hhd]; simpl.
  - repeat constructor.
  - destruct (ltb (key x) (key y)) eqn:Hlt.
    + constructor; [by constructor|]. constructor. by apply ltb_asym.
    + constructor; [done|]. by apply insert_sorted_hd.
Qed.

Lemma sort_by_Sorted_acc (xs acc : list A) :
  Sorted (key_le ltb key) acc →
  Sorted (key_le ltb key)
    (fold_left (λ acc x, insert_sorted ltb key x acc) xs acc).
Proof.
  revert acc. induction xs as [|x xs IH]; intros acc Hacc; simpl; [done|].
  by apply IH, insert_sorted_Sorted.
Qed.

Lemma sort_by_Sorted (xs : list A) : Sorted (key_le ltb key) (sort_by ltb key xs).
Proof. apply sort_by_Sorted_acc. constructor. Qed.

(** Stability: the elements that share a key keep the order they came in. *)

Hypothesis le_trans : Transitive (key_le ltb key).
Context `{!EqDecision K}.

Lemma insert_sorted_filter_other (k : K) (x : A) (xs : list A) :
  key x ≠ k →
  filter (λ y, key y = k) (insert_sorted ltb key x xs) = filter (λ y, key y = k) xs.
Proof.
  intros Hx. induction xs as [|y ys IH]; simpl.
  - by rewrite filter_cons_False.
  - destruct (ltb (key x) (key y)); [by rewrite filter_cons_False|].
    by rewrite !filter_cons, IH.
Qed.

Lemma insert_sorted_filter_same (x : A) (xs : list A) :
  StronglySorted (key_le ltb key) xs →
  filter (λ y, key y = key x) (insert_sorted ltb key x xs)
  = filter (λ y, key y = key x) xs ++ [x].
Proof.
  induction 1 as [|y ys Hys IH Hall]; simpl.
  - by rewrite filter_cons_True.
  - destruct (ltb (key x) (key y)) eqn:Hlt.
    + rewrite filter_cons_True by done. rewrite filter_none; [done|].
      constructor.
      * intros Heq. rewrite Heq in Hlt. by rewrite (ltb_asym _ _ Hlt) in Hlt.
      * eapply Forall_impl; [exact Hall|]. intros z Hyz Heq.
        unfold key_le in Hyz. rewrite Heq in Hyz. congruence.
    + rewrite !filter_cons, IH. by destruct (decide (key y = key x)).
Qed.

Lemma sort_by_stable_acc (k : K) (xs acc : list A) :
  Sorted (key_le ltb key) acc →
  filter (λ y, key y = k) (fold_left (λ acc x, insert_sorted ltb key x acc) xs acc)
  = filter (λ y, key y = k) acc ++ filter (λ y, key y = k) xs.
Proof.
  revert acc. induction xs as [|x xs IH]; intros acc Hacc; simpl.
  - by rewrite app_nil_r.
  - rewrite IH by by apply insert_sorted_Sorted.
    rewrite filter_cons. destruct (decide (key x = k)) as [<-|Hne].
    + rewrite insert_sorted_filter_same, <- app_assoc; [done|].
      by apply Sorted_StronglySorted.
    + by rewrite insert_sorted_filter_other.
Qed.

Lemma sort_by_stable (k : K) (xs : list A) :
  filter (λ y, key y = k) (sort_by ltb key xs) = filter (λ y, key y = k) xs.
Proof. apply sort_by_stable_acc. constructor. Qed.

End SortFacts.

(** ** The fetcher *)

Lemma collect_ok_inv {A B} (f : A → result B) (xs : list A) (ys : list B) :
  collect f xs = Ok ys → Forall2 (λ x y, f x = Ok y) xs ys.
Proof.
  revert ys. induction xs as [|x xs IH]; intros ys; simpl.
  - intros [= <-]. constructor.
  - destruct (f x) as [b|e] eqn:Hx; simpl; [|done].
    destruct (collect f xs) as [bs|e]; simpl; [|done].
    intros [= <-]. constructor; auto.
Qed.

Lemma collect_ok {A B} (f : A → result B) (xs : list A) (ys : list B) :
  Forall2 (λ x y, f x = Ok y) xs ys → collect f xs = Ok ys.
Proof.
  induction 1 as [|x y xs ys Hx _ IH]; simpl; [done|].
  by rewrite Hx, IH.
Qed.

(** The loop raises what the first entry that fails raises. *)
Lemma collect_raise {A B} (f : A → result B) (pre : list A) (x : A)
    (post : list A) (e : exn) :
  Forall (λ a, is_ok (f a) = true) pre →
  f x = Raise e →
  collect f (pre ++ x :: post) = Raise e.
Proof.
  intros Hpre Hx. induction Hpre as [|a pre Ha _ IH]; simpl.
  - by rewrite Hx.
  - destruct (f a); [|done]. simpl. by rewrite IH.
Qed.

Section Fetcher.
Context {lib : PyLib} (E : environment).

Lemma sort_by_date_sorted (records : list price_record) :
  StronglySorted date_le (as_of_date <$> sort_by date_ltb as_of_date records).
Proof.
  apply Sorted_StronglySorted; [exact date_le_trans|].
  eapply Sorted_fmap; [|apply (sort_by_Sorted date_ltb as_of_date)].
  - intros x y Hxy. exact Hxy.
  - intros a b Hab. destruct (date_ltb b a) eqn:Hba; [|done].
    apply date_ltb_lex in Hab, Hba. lia.
Qed.

(** Records of one date stay in the order of the payload. *)
Lemma sort_by_date_stable (d : date) (records : list price_record) :
  filter (λ r, as_of_date r = d) (sort_by date_ltb as_of_date records)
  = filter (λ r, as_of_date r = d) records.
Proof.
  apply sort_by_stable.
  - intros a b Hab. destruct (date_ltb b a) eqn:Hba; [|done].
    apply date_ltb_lex in Hab, Hba. lia.
  - intros x y z. unfold key_le. apply date_le_trans.
Qed.

(** The exception of [print], when there is one, is that of the stream for
    the first line it did not write. *)
Lemma printed_raise fault n lines e :
  (printed fault n lines).2 = Some e →
  ∃ line, lines !! length (printed fault n lines).1 = Some line ∧
    fault (n + length (printed fault n lines).1)%nat line = Some e.
Proof.
  revert n. induction lines as [|line lines IH]; intros n; simpl; [done|].
  destruct (fault n line) as [e'|] eqn:Hline; simpl.
  - intros [= ->]. exists line. by rewrite Nat.add_0_r.
  - specialize (IH (S n)).
    destruct (printed fault (S n) lines) as [out r]; simpl in *.
    intros Hr. destruct (IH Hr) as (line' & Hlookup & Hfault).
    exists line'. split; [done|]. by rewrite <- Nat.add_succ_comm.
Qed.

Lemma fetch_on_response (symbol api_key : string) (resp : response) (w : world) :
  environ E !! "ALPHAVANTAGE_API_KEY" = Some api_key →
  requests_get E (query_url symbol api_key) 20 = Ok resp →
  fetch_history_for_symbol E symbol w =
    (match (printed (stdout_fault E) (length (stdout w))
              (on_response symbol resp).2).2 with
     | Some e => Raise e
     | None => (on_response symbol resp).1
     end,
     World (stdout w ++ (printed (stdout_fault E) (length (stdout w))
                           (on_response symbol resp).2).1)
           (requests w ++ [query_url symbol api_key])
           (db_calls w) (slept w) (db w)).
Proof.
  intros Hkey Hresp.
  unfold fetch_history_for_symbol, on_response, getenv, bind at 1.
  rewrite Hkey. unfold ret at 1, bind at 1, http_get.
  rewrite Hresp.
  destruct w as [out reqs calls sl st]; cbn [stdout requests db_calls slept db].
  destruct (status_code resp =? 429).
  { unfold bind, print; simpl.
    destruct (stdout_fault E (length out) (Warn429 symbol));
      simpl; by rewrite ?app_nil_r. }
  destruct (negb (ok resp)).
  { unfold bind, print; simpl.
    destruct (stdout_fault E (length out) (WarnHttp symbol (status_code resp)));
      simpl; by rewrite ?app_nil_r. }
  unfold bind at 1, lift at 1.
  destruct (json resp) as [data|e]; [|by simpl; rewrite app_nil_r].
  destruct data as [| | | |s|l|d]; simpl;
    try (by rewrite app_nil_r).
  - unfold bind, lift; simpl.
    destruct (is_substring _ s); simpl; by rewrite app_nil_r.
  - unfold bind, lift; simpl.
    destruct (existsb _ l); simpl; by rewrite app_nil_r.
  - unfold bind at 1, lift at 1; simpl.
    destruct (dict_get "Time Series (Daily)" d) as [ts|] eqn:Hts; simpl.
    + unfold bind at 1, lift at 1; simpl.
      destruct ts; simpl; try (by rewrite app_nil_r).
      unfold bind at 1, lift at 1; simpl.
      destruct (collect _ _); simpl; by rewrite app_nil_r.
    + unfold bind at 1, lift at 1; simpl.
      unfold bind at 1, print at 1; simpl.
      destruct (stdout_fault E (length out) (WarnUnexpected symbol (d.*1)));
        simpl; [by rewrite app_nil_r|].
      unfold bind, lift, print, ret, py_or; simpl.
      destruct (py_truthy (default PNone (dict_get "Information" d))) eqn:Hinfo;
        simpl; rewrite ?Hinfo, length_app, Nat.add_1_r;
        match goal with
        | |- context [stdout_fault E (S (length out)) ?line] =>
          destruct (stdout_fault E (S (length out)) line)
        end; simpl; by rewrite <- ?app_assoc.
Qed.

Lemma fetch_no_key (symbol : string) (w : world) :
  environ E !! "ALPHAVANTAGE_API_KEY" = None →
  fetch_history_for_symbol E symbol w = (Raise (KeyError "ALPHAVANTAGE_API_KEY"), w).
Proof.
  intros Hkey. unfold fetch_history_for_symbol, getenv, bind at 1.
  by rewrite Hkey.
Qed.

Lemma fetch_request_raises (symbol api_key : string) (e : exn) (w : world) :
  environ E !! "ALPHAVANTAGE_API_KEY" = Some api_key →
  requests_get E (query_url symbol api_key) 20 = Raise e →
  (fetch_history_for_symbol E symbol w).1 = Raise e.
Proof.
  intros Hkey Hresp. unfold fetch_history_for_symbol, getenv, bind at 1.
  rewrite Hkey. unfold ret at 1, bind at 1, http_get. by rewrite Hresp.
Qed.

Lemma on_response_sorted (symbol : string) (resp : response)
    (records : list price_record) :
  (on_response symbol resp).1 = Ok records →
  StronglySorted date_le (as_of_date <$> records).
Proof.
  unfold on_response. intros Hret.
  repeat case_match; simplify_eq/=;
    first [apply sort_by_date_sorted | constructor].
Qed.

(** Only the paths that return the empty list print. *)
Lemma on_response_lines (symbol : string) (resp : response) :
  (on_response symbol resp).2 = [] ∨ (on_response symbol resp).1 = Ok [].
Proof. unfold on_response. repeat case_match; simpl; auto. Qed.

(** A date key [strptime] rejects ends the loop with that exception. *)
Lemma parse_entry_bad_date (symbol date_str : string) (vals : pyval) (e : exn) :
  strptime_ymd date_str = Raise e →
  parse_entry symbol (date_str, vals) = Raise e.
Proof. intros Hd. unfold parse_entry. by rewrite Hd. Qed.

(** So does an opening price [float] rejects. *)
Lemma parse_entry_bad_open (symbol date_str : string) (vals x : pyval)
    (d : date) (e : exn) :
  strptime_ymd date_str = Ok d →
  py_getitem vals "1. open" = Ok x →
  py_float x = Raise e →
  parse_entry symbol (date_str, vals) = Raise e.
Proof.
  intros Hd Hx He. unfold parse_entry. rewrite Hd. simpl.
  unfold mbind, result_bind. rewrite Hx. simpl. by rewrite He.
Qed.

(** C2. Whatever the provider sent and in whatever order its dates came,
    a list that [fetch_history_for_symbol] returns is in ascending order of
    [as_of_date]: each record's date is at most that of every later one. *)
Theorem fetch_sorted_by_date (symbol : string) (w w' : world)
    (records : list price_record) :
  fetch_history_for_symbol E symbol w = (Ok records, w') →
  StronglySorted date_le (as_of_date <$> records).
Proof.
  intros Hrun.
  destruct (environ E !! "ALPHAVANTAGE_API_KEY") as [api_key|] eqn:Hkey.
  - destruct (requests_get E (query_url symbol api_key) 20) as [resp|e] eqn:Hresp.
    + rewrite (fetch_on_response _ _ _ _ Hkey Hresp) in Hrun.
      injection Hrun as Hret _.
      destruct (printed _ _ _).2; [done|]. by eapply on_response_sorted.
    + pose proof (fetch_request_raises symbol _ e w Hkey Hresp) as Hraise.
      rewrite Hrun in Hraise. done.
  - rewrite fetch_no_key in Hrun by done. done.
Qed.

(** On a payload whose entries all parse, the fetcher does return: the
    records of the entries, rearranged. *)
Lemma fetch_well_formed (symbol api_key : string) (resp : response)
    (d ts : list (string * pyval)) (parsed : list price_record) (w : world) :
  environ E !! "ALPHAVANTAGE_API_KEY" = Some api_key →
  requests_get E (query_url symbol api_key) 20 = Ok resp →
  status_code resp ≠ 429 → ok resp = true →
  json resp = Ok (PDict d) →
  dict_get "Time Series (Daily)" d = Some (PDict ts) →
  Forall2 (λ item rec, parse_entry symbol item = Ok rec) ts parsed →
  ∃ records,
    (fetch_history_for_symbol E symbol w).1 = Ok records ∧
    records ≡ₚ parsed ∧
    StronglySorted date_le (as_of_date <$> records).
Proof.
  intros Hkey Hresp H429 Hok Hjson Hts Hparsed.
  rewrite (fetch_on_response _ _ _ _ Hkey Hresp). unfold on_response.
  apply Z.eqb_neq in H429. rewrite H429, Hok, Hjson, Hts. simpl.
  rewrite (collect_ok _ _ _ Hparsed). simpl.
  eexists. split; [done|]. split.
  - apply sort_by_perm.
  - apply sort_by_date_sorted.
Qed.

(** C5, amended. When the provider answers the request for [symbol] with
    status 429, [fetch_history_for_symbol] prints the rate-limit warning
    for that symbol and returns the empty list (nothing else changed but
    the record of the request), provided the stream takes the warning.
    When it does not, the exception of [print] is the outcome of the call
    and nothing was written: the fetcher catches nothing. *)
Theorem fetch_rate_limited (symbol api_key : string) (resp : response) (w : world) :
  environ E !! "ALPHAVANTAGE_API_KEY" = Some api_key →
  requests_get E (query_url symbol api_key) 20 = Ok resp →
  status_code resp = 429 →
  fetch_history_for_symbol E symbol w =
    match stdout_fault E (length (stdout w)) (Warn429 symbol) with
    | None =>
      (Ok [],
       World (stdout w ++ [Warn429 symbol])
             (requests w ++ [query_url symbol api_key])
             (db_calls w) (slept w) (db w))
    | Some e =>
      (Raise e,
       World (stdout w) (requests w ++ [query_url symbol api_key])
             (db_calls w) (slept w) (db w))
    end.
Proof.
  intros Hkey Hresp H429.
  rewrite (fetch_on_response _ _ _ _ Hkey Hresp).
  unfold on_response. rewrite H429. simpl.
  destruct (stdout_fault E (length (stdout w)) (Warn429 symbol)); simpl;
    by rewrite ?app_nil_r.
Qed.

(** C1, amended. Once the provider has answered, the fetcher returns the
    empty list in the three cases it guards: status 429, any other 4xx or
    5xx status, and a JSON object without the time-series key, provided
    the stream takes the warning it prints (two lines in the third case).
    Nothing is caught anywhere: the exception of a [print] the stream
    refuses is the outcome of the call, and past the guards so is an
    exception from [resp.json()], or from parsing the first entry of the
    time series that fails to parse. *)
Theorem fetch_guarded_failures (symbol api_key : string) (resp : response)
    (w : world) :
  environ E !! "ALPHAVANTAGE_API_KEY" = Some api_key →
  requests_get E (query_url symbol api_key) 20 = Ok resp →
  let n := length (stdout w) in
  (status_code resp = 429 →
   (fetch_history_for_symbol E symbol w).1 =
     match stdout_fault E n (Warn429 symbol) with
     | Some e => Raise e
     | None => Ok []
     end) ∧
  (status_code resp ≠ 429 → ok resp = false →
   (fetch_history_for_symbol E symbol w).1 =
     match stdout_fault E n (WarnHttp symbol (status_code resp)) with
     | Some e => Raise e
     | None => Ok []
     end) ∧
  (status_code resp ≠ 429 → ok resp = true →
   (∀ d, json resp = Ok (PDict d) →
      dict_get "Time Series (Daily)" d = None →
      (fetch_history_for_symbol E symbol w).1 =
        match stdout_fault E n (WarnUnexpected symbol (d.*1)) with
        | Some e => Raise e
        | None =>
          match stdout_fault E (S n)
                  (WarnMessage
                     (py_or (py_or (default PNone (dict_get "Information" d))
                                   (default PNone (dict_get "Note" d)))
                            (PDict d))) with
          | Some e => Raise e
          | None => Ok []
          end
        end) ∧
   (∀ e, json resp = Raise e →
      (fetch_history_for_symbol E symbol w).1 = Raise e) ∧
   (∀ d pre item post e,
      json resp = Ok (PDict d) →
      dict_get "Time Series (Daily)" d = Some (PDict (pre ++ item :: post)) →
      Forall (λ it, is_ok (parse_entry symbol it) = true) pre →
      parse_entry symbol item = Raise e →
      (fetch_history_for_symbol E symbol w).1 = Raise e)).
Proof.
  intros Hkey Hresp n.
  rewrite (fetch_on_response _ _ _ _ Hkey Hresp). unfold on_response.
  cbn [fst snd]. fold n. split; [|split].
  - intros H429. rewrite H429. simpl.
    by destruct (stdout_fault E n (Warn429 symbol)).
  - intros H429 Hok. apply Z.eqb_neq in H429. rewrite H429, Hok. simpl.
    by destruct (stdout_fault E n (WarnHttp symbol (status_code resp))).
  - intros H429 Hok. apply Z.eqb_neq in H429. rewrite H429, Hok. simpl.
    split; [|split].
    + intros d Hjson Hts. rewrite Hjson, Hts. simpl.
      destruct (stdout_fault E n (WarnUnexpected symbol (d.*1))); [done|].
      by destruct (stdout_fault E (S n) _).
    + intros e Hjson. by rewrite Hjson.
    + intros d pre item post e Hjson Hts Hpre Hitem.
      rewrite Hjson, Hts, (collect_raise _ _ _ _ _ Hpre Hitem). done.
Qed.

End Fetcher.

(** ** The writer: rows *)

Section Rows.
Implicit Types (rows : list stored_row) (records : list price_record) (k : key).

Lemma rows_with_upsert_row_eq now rec rows :
  rows_with (key_of rec) (upsert_row now rec rows) = [StoredRow rec now].
Proof.
  unfold rows_with, upsert_row. rewrite filter_app, list_filter_filter.
  rewrite filter_none.
  - rewrite filter_cons_True by done. done.
  - apply Forall_forall. intros r _ [Heq Hne]. done.
Qed.

Lemma rows_with_upsert_row_ne now rec rows k :
  key_of rec ≠ k →
  rows_with k (upsert_row now rec rows) = rows_with k rows.
Proof.
  intros Hne. unfold rows_with, upsert_row.
  rewrite filter_app, list_filter_filter.
  rewrite filter_cons_False by done. rewrite filter_nil, app_nil_r.
  apply list_filter_iff. intros r. unfold row_key. split; [tauto|].
  intros <-. split; [done|]. intros Heq. apply Hne. by rewrite <- Heq.
Qed.

Lemma upsert_row_unique now rec rows :
  NoDup (row_key <$> rows) → NoDup (row_key <$> upsert_row now rec rows).
Proof.
  intros Hnd. unfold upsert_row. rewrite fmap_app. apply NoDup_app.
  split; [|split].
  - eapply sublist_NoDup; [exact Hnd|]. apply fmap_sublist, sublist_filter.
  - intros k Hk ->%list_elem_of_singleton.
    apply list_elem_of_fmap in Hk as (r & Hr & [Hne _]%list_elem_of_filter).
    by apply Hne.
  - apply NoDup_singleton.
Qed.

(** A key the list does not mention keeps its rows. *)
Lemma rows_with_upsert_rows_other clock n records rows k :
  k ∉ key_of <$> records →
  rows_with k (upsert_rows clock n records rows) = rows_with k rows.
Proof.
  revert n rows. induction records as [|rec records IH]; intros n rows Hk; [done|].
  apply not_elem_of_cons in Hk as [Hne Hk]. simpl.
  rewrite IH by done. by apply rows_with_upsert_row_ne.
Qed.

(** A key the list mentions ends with exactly one row: the last record of
    the list with that key, stamped by one of the loop's calls. *)
Lemma rows_with_upsert_rows clock n records rows k :
  k ∈ key_of <$> records →
  ∃ rec j,
    last (records_with k records) = Some rec ∧
    (n < j ≤ n + 2 * length records)%nat ∧
    rows_with k (upsert_rows clock n records rows) = [StoredRow rec (clock j)].
Proof.
  revert n rows. induction records as [|rec records IH]; intros n rows Hk.
  - by apply elem_of_nil in Hk.
  - simpl. destruct (decide (k ∈ key_of <$> records)) as [Hin|Hout].
    + destruct (IH (n + 2)%nat (upsert_row (clock (n + 1)%nat) rec rows) Hin)
        as (rec' & j & Hlast & Hj & Hrows).
      exists rec', j. split; [|split; [lia|done]].
      unfold records_with in *. destruct (decide (key_of rec = k)).
      * rewrite filter_cons_True by done.
        destruct (filter _ records); [done|]. by rewrite last_cons_cons.
      * by rewrite filter_cons_False.
    + apply elem_of_cons in Hk as [->|Hin]; [|done].
      exists rec, (n + 1)%nat. split; [|split; [lia|]].
      * unfold records_with. rewrite filter_cons_True by done.
        rewrite filter_none; [done|].
        apply Forall_forall. intros r Hr Heq. apply Hout.
        apply list_elem_of_fmap. by exists r.
      * rewrite rows_with_upsert_rows_other by done.
        apply rows_with_upsert_row_eq.
Qed.

Lemma upsert_rows_unique clock n records rows :
  NoDup (row_key <$> rows) →
  NoDup (row_key <$> upsert_rows clock n records rows).
Proof.
  revert n rows. induction records as [|rec records IH]; intros n rows Hnd; [done|].
  simpl. by apply IH, upsert_row_unique.
Qed.

End Rows.

(** ** The writer: runs without faults *)

Section Writer.
Context (E : environment).
Implicit Types (w : world) (records : list price_record).

Lemma bind_ok {A B} (m : M A) (k : A → M B) w a w' :
  m w = (Ok a, w') → bind m k w = k a w'.
Proof. intros Hm. unfold bind. by rewrite Hm. Qed.

Lemma bind_raise {A B} (m : M A) (k : A → M B) w e w' :
  m w = (Raise e, w') → bind m k w = (Raise e, w').
Proof. intros Hm. unfold bind. by rewrite Hm. Qed.

Lemma getenv_configured name :
  is_Some (environ E !! name) → getenv E name = ret (env_or_empty E name).
Proof. intros [x Hx]. unfold getenv, env_or_empty. by rewrite Hx. Qed.

Lemma set_table_twice t rows rows' st :
  set_table t rows (set_table t rows' st) = set_table t rows st.
Proof. unfold set_table. simpl. by rewrite insert_insert_eq. Qed.

Lemma set_table_same t rows st :
  tables st !! t = Some rows → set_table t rows st = st.
Proof. intros Ht. destruct st. unfold set_table. simpl in *. by rewrite insert_id. Qed.

Lemma db_do_other call w :
  fault_free E →
  (∀ s, call ≠ Execute s) →
  db_do E call w =
    (Ok tt, World (stdout w) (requests w) (db_calls w ++ [call]) (slept w) (db w)).
Proof.
  intros Hff Hne. unfold db_do. rewrite Hff.
  destruct call; try done. by destruct (Hne s).
Qed.

Lemma db_do_execute s st w :
  fault_free E →
  exec_stmt (db_clock E (length (db_calls w))) (pk_enforced E) s (db w) = Ok st →
  db_do E (Execute s) w =
    (Ok tt, World (stdout w) (requests w) (db_calls w ++ [Execute s]) (slept w) st).
Proof. intros Hff Hs. unfold db_do. by rewrite Hff, Hs. Qed.

(** After the delete, the insert finds no row with its key, so it goes
    through whether or not the primary key is enforced. *)
Lemma exec_delete_insert now now' enforce fq rec rows st :
  tables st !! fq = Some rows →
  exec_stmt now enforce (DeleteFrom fq (as_of_date rec) (symbol rec)) st
    ≫= exec_stmt now' enforce (InsertInto fq rec)
  = Ok (set_table fq (upsert_row now' rec rows) st).
Proof.
  intros Ht. simpl. rewrite Ht. simpl.
  unfold set_table at 1 2. simpl. rewrite lookup_insert_eq.
  rewrite bool_decide_false, andb_false_r.
  - by rewrite insert_insert_eq.
  - intros (r & Hk & [Hne _]%list_elem_of_filter)%list_elem_of_fmap.
    by apply Hne.
Qed.

Lemma loop_run cs fq records w rows :
  fault_free E →
  tables (db w) !! fq = Some rows →
  for_each records (λ rec,
      execute E cs (DeleteFrom fq (as_of_date rec) (symbol rec)) ;;
      execute E cs (InsertInto fq rec)) w
  = (Ok tt,
     World (stdout w) (requests w) (db_calls w ++ loop_calls fq records) (slept w)
       (set_table fq (upsert_rows (db_clock E) (length (db_calls w)) records rows)
          (db w))).
Proof.
  intros Hff. revert w rows.
  induction records as [|rec records IH]; intros w rows Ht; simpl.
  - rewrite app_nil_r, set_table_same by done. by destruct w.
  - pose proof (exec_delete_insert (db_clock E (length (db_calls w)))
      (db_clock E (length (db_calls w) + 1)) (pk_enforced E) fq rec rows (db w) Ht)
      as Hpair.
    destruct (exec_stmt _ _ (DeleteFrom _ _ _) (db w)) as [st1|] eqn:Hdel; [|done].
    simpl in Hpair. unfold execute.
    erewrite bind_ok; last first.
    { erewrite bind_ok; last by apply db_do_execute.
      apply db_do_execute; [done|]. simpl. rewrite length_app. simpl.
      exact Hpair. }
    erewrite IH; simpl.
    + rewrite set_table_twice, !length_app, <- !app_assoc. simpl.
      by replace (length (db_calls w) + 1 + 1)%nat with (length (db_calls w) + 2)%nat by lia.
    + unfold set_table. simpl. apply lookup_insert_eq.
Qed.

Lemma bind_ret {A B} (a : A) (k : A → M B) : bind (ret a) k = k a.
Proof. reflexivity. Qed.

(** A run that no call fails: the calls it makes and the tables it leaves. *)
Lemma upsert_run records w :
  fault_free E → configured E → records ≠ [] →
  insert_history_into_snowflake E records w =
    (Ok tt,
     World (stdout w) (requests w) (db_calls w ++ upsert_calls E records) (slept w)
       (Store ({[schema_of E]} ∪ schemas (db w))
          (<[fq_table_of E :=
               upsert_rows (db_clock E) (length (db_calls w) + 4) records
                 (stock_prices E w)]> (tables (db w))))).
Proof.
  intros Hff Hcfg Hne.
  assert (is_nil records = false) as Hnil by by destruct records.
  unfold insert_history_into_snowflake. rewrite Hnil.
  unfold configured in Hcfg.
  repeat match goal with
         | H : Forall _ (_ :: _) |- _ => apply Forall_cons in H as [? H]
         end.
  do 6 (rewrite getenv_configured, bind_ret by done).
  change (ConnectArgs _ _ _ _ _ _ _) with (connect_args_of E).
  change (env_or_empty E "SNOWFLAKE_DB" +:+ "." +:+ getenv_default E "SNOWFLAKE_RAW_SCHEMA" "RAW" +:+ ".STOCK_PRICES")
    with (fq_table_of E).
  change (env_or_empty E "SNOWFLAKE_DB" +:+ "." +:+ getenv_default E "SNOWFLAKE_RAW_SCHEMA" "RAW")
    with (schema_of E).
  unfold connect. erewrite bind_ok; last first.
  { erewrite bind_ok; [reflexivity|]. by apply db_do_other. }
  unfold try_finally, new_cursor.
  erewrite (bind_ok (db_do E Cursor)); last by apply db_do_other.
  unfold ret at 1. unfold execute, commit. world_simpl.
  erewrite bind_ok; last by apply db_do_execute.
  world_simpl.
  assert (∃ st,
    (∀ now, exec_stmt now (pk_enforced E) (CreateTableIfNotExists (fq_table_of E))
      (Store ({[schema_of E]} ∪ schemas (db w)) (tables (db w))) = Ok st) ∧
    tables st !! fq_table_of E = Some (stock_prices E w) ∧
    ∀ rows, set_table (fq_table_of E) rows st
    = Store ({[schema_of E]} ∪ schemas (db w))
        (<[fq_table_of E := rows]> (tables (db w)))) as (st & Hst & Hlook & Hfin).
  { simpl. unfold stock_prices.
    destruct (tables (db w) !! fq_table_of E) as [rows0|] eqn:Ht; simpl.
    - eexists. split; [done|]. by split.
    - eexists. split; [done|]. unfold set_table. simpl.
      rewrite lookup_insert_eq. split; [done|]. intros rows.
      by rewrite insert_insert_eq. }
  erewrite bind_ok; last by apply db_do_execute.
  world_simpl.
  erewrite bind_ok; last by apply (loop_run (Cur (Conn (connect_args_of E)))).
  world_simpl. rewrite db_do_other by done. world_simpl.
  cbn [local]. rewrite bind_ret. unfold cursor_close, connection_close.
  erewrite bind_ok; last by apply db_do_other.
  rewrite db_do_other by done. world_simpl.
  rewrite Hfin, !length_app. simpl.
  replace (length (db_calls w) + 1 + 1 + 1 + 1)%nat
    with (length (db_calls w) + 4)%nat by lia.
  unfold upsert_calls. by rewrite <- !app_assoc.
Qed.

Lemma stock_prices_after_run records w :
  fault_free E → configured E → records ≠ [] →
  stock_prices E (insert_history_into_snowflake E records w).2 =
    upsert_rows (db_clock E) (length (db_calls w) + 4) records (stock_prices E w).
Proof.
  intros Hff Hcfg Hne. rewrite upsert_run by done.
  unfold stock_prices at 1. simpl. by rewrite lookup_insert_eq.
Qed.

Lemma db_calls_after_run records w :
  fault_free E → configured E → records ≠ [] →
  db_calls (insert_history_into_snowflake E records w).2 =
    db_calls w ++ upsert_calls E records.
Proof. intros Hff Hcfg Hne. by rewrite upsert_run. Qed.

Lemma length_loop_calls fq records :
  length (loop_calls fq records) = (2 * length records)%nat.
Proof. induction records as [|rec records IH]; simpl; lia. Qed.

Lemma length_upsert_calls records :
  length (upsert_calls E records) = (2 * length records + 7)%nat.
Proof.
  unfold upsert_calls. rewrite !length_app, length_loop_calls. simpl. lia.
Qed.

(** One run: every key of the list ends with exactly one row, which holds
    the values of the key's last record in the list and was inserted by
    this run. *)
Lemma upsert_one_row_per_key records rec w :
  fault_free E → configured E → rec ∈ records →
  ∃ row j,
    (insert_history_into_snowflake E records w).1 = Ok tt ∧
    rows_with (key_of rec)
      (stock_prices E (insert_history_into_snowflake E records w).2) = [row] ∧
    last (records_with (key_of rec) records) = Some (row_values row) ∧
    fetched_at row = db_clock E j ∧
    (length (db_calls w) ≤ j <
       length (db_calls (insert_history_into_snowflake E records w).2))%nat.
Proof.
  intros Hff Hcfg Hrec.
  assert (records ≠ []) as Hne by (intros ->; by apply elem_of_nil in Hrec).
  rewrite stock_prices_after_run, db_calls_after_run by done.
  rewrite upsert_run by done. simpl.
  destruct (rows_with_upsert_rows (db_clock E) (length (db_calls w) + 4) records
              (stock_prices E w) (key_of rec)) as (rec' & j & Hlast & Hj & Hrows).
  { apply list_elem_of_fmap. by exists rec. }
  exists (StoredRow rec' (db_clock E j)), j.
  rewrite length_app, length_upsert_calls. simpl.
  repeat split; try done; lia.
Qed.

(** C8. For the empty list the writer returns at once: no variable is
    read, no connector call is made (no connection, DDL or DML), and the
    world, tables included, is what it was. *)
Theorem upsert_empty_is_noop w :
  insert_history_into_snowflake E [] w = (Ok tt, w).
Proof. reflexivity. Qed.

(** C10. When a list holds several records with one (date, symbol) key, a
    single run leaves exactly one row for that key, and the row holds the
    values of the last of those records in the list. *)
Theorem upsert_last_occurrence_wins records rec w :
  fault_free E → configured E → rec ∈ records →
  (insert_history_into_snowflake E records w).1 = Ok tt ∧
  ∃ row,
    rows_with (key_of rec)
      (stock_prices E (insert_history_into_snowflake E records w).2) = [row] ∧
    last (records_with (key_of rec) records) = Some (row_values row).
Proof.
  intros Hff Hcfg Hrec.
  destruct (upsert_one_row_per_key records rec w Hff Hcfg Hrec)
    as (row & j & Hok & Hrows & Hlast & _).
  split; [done|]. by exists row.
Qed.

(** C3. Writing the same list twice, from any state of the table: after
    the second run every (date, symbol) key of the list has exactly one
    row, and that row was inserted by the second run with the values the
    list gives that key. *)
Theorem upsert_twice_one_row_per_key records rec w :
  fault_free E → configured E → rec ∈ records →
  let w1 := (insert_history_into_snowflake E records w).2 in
  let w2 := (insert_history_into_snowflake E records w1).2 in
  (insert_history_into_snowflake E records w1).1 = Ok tt ∧
  ∃ row j,
    rows_with (key_of rec) (stock_prices E w2) = [row] ∧
    last (records_with (key_of rec) records) = Some (row_values row) ∧
    fetched_at row = db_clock E j ∧
    (length (db_calls w1) ≤ j < length (db_calls w2))%nat.
Proof.
  intros Hff Hcfg Hrec w1 w2.
  destruct (upsert_one_row_per_key records rec w1 Hff Hcfg Hrec)
    as (row & j & Hok & Hrows & Hlast & Hat & Hj).
  split; [done|]. by exists row, j.
Qed.

(** C7. Two records for one date and two different symbols: after the run
    each key has its row, with its own values. And a run that writes one
    record leaves in place every row of another symbol, on the same date
    or not. *)
Theorem upsert_keeps_other_symbol r1 r2 w :
  fault_free E → configured E →
  as_of_date r1 = as_of_date r2 → symbol r1 ≠ symbol r2 →
  (row_values <$> rows_with (key_of r1)
     (stock_prices E (insert_history_into_snowflake E [r1; r2] w).2) = [r1]) ∧
  (row_values <$> rows_with (key_of r2)
     (stock_prices E (insert_history_into_snowflake E [r1; r2] w).2) = [r2]) ∧
  (∀ row, row ∈ stock_prices E w →
     symbol (row_values row) ≠ symbol r1 →
     row ∈ stock_prices E (insert_history_into_snowflake E [r1] w).2).
Proof.
  intros Hff Hcfg Hdate Hsym.
  assert (key_of r1 ≠ key_of r2) as Hkey by (unfold key_of; congruence).
  rewrite !stock_prices_after_run by done. simpl.
  split; [|split].
  - rewrite rows_with_upsert_row_ne by done.
    by rewrite rows_with_upsert_row_eq.
  - by rewrite rows_with_upsert_row_eq.
  - intros row Hrow Hne. unfold upsert_row.
    apply elem_of_app. left. apply list_elem_of_filter. split; [|done].
    unfold row_key, key_of. congruence.
Qed.

End Writer.

(** ** The writer: what every run keeps, faults included *)

Section Invariant.
Context (E : environment) (I : store → Prop).

Lemma preserves_ret {A} (a : A) : preserves (on_db I) (ret a).
Proof. by intros w. Qed.

Lemma preserves_raise {A} (e : exn) : preserves (on_db I) (@raise A e).
Proof. by intros w. Qed.

Lemma preserves_bind {A B} (m : M A) (k : A → M B) :
  preserves (on_db I) m → (∀ a, preserves (on_db I) (k a)) → preserves (on_db I) (bind m k).
Proof.
  intros Hm Hk w Hw. unfold bind. specialize (Hm w Hw).
  destruct (m w) as [[a|e] w']; simpl in *; [by apply Hk|done].
Qed.

Lemma preserves_getenv name : preserves (on_db I) (getenv E name).
Proof.
  unfold getenv. destruct (environ E !! name);
    [apply preserves_ret|apply preserves_raise].
Qed.

Lemma preserves_local {L} name (x : option L) : preserves (on_db I) (local name x).
Proof. destruct x; [apply preserves_ret|apply preserves_raise]. Qed.

Lemma preserves_for_each {A} (xs : list A) (f : A → M unit) :
  (∀ x, preserves (on_db I) (f x)) → preserves (on_db I) (for_each xs f).
Proof.
  intros Hf. induction xs as [|x xs IH]; simpl.
  - apply preserves_ret.
  - apply preserves_bind; [apply Hf|]. intros _. apply IH.
Qed.

Lemma preserves_try_finally {L A} (acquire : M L) (body : L → M A)
    (fin : option L → M unit) :
  preserves (on_db I) acquire → (∀ cs, preserves (on_db I) (body cs)) →
  (∀ cs, preserves (on_db I) (fin cs)) →
  preserves (on_db I) (try_finally acquire body fin).
Proof.
  intros Ha Hb Hf w Hw. unfold try_finally. specialize (Ha w Hw).
  destruct (acquire w) as [[cs|e] w0]; simpl in *.
  - specialize (Hb cs w0 Ha). destruct (body cs w0) as [r w1]; simpl in *.
    specialize (Hf (Some cs) w1 Hb).
    by destruct (fin (Some cs) w1) as [[?|?] w2].
  - specialize (Hf None w0 Ha).
    by destruct (fin None w0) as [[?|?] w2].
Qed.

(** A call changes the tables only when it is an accepted [execute]. *)
Lemma db_do_cases call w :
  db (db_do E call w).2 = db w ∨
  ∃ s st, call = Execute s ∧ (db_do E call w).1 = Ok tt ∧
    exec_stmt (db_clock E (length (db_calls w))) (pk_enforced E) s (db w) = Ok st ∧
    db (db_do E call w).2 = st.
Proof.
  unfold db_do. destruct (db_fault E _); [by left|].
  destruct call; try by left.
  destruct (exec_stmt _ _ s (db w)) as [st|e] eqn:Hs; [|by left].
  right. by exists s, st.
Qed.

Lemma preserves_db_do_other call :
  (∀ s, call ≠ Execute s) → preserves (on_db I) (db_do E call).
Proof.
  intros Hne w Hw. unfold on_db.
  destruct (db_do_cases call w) as [->|(s & _ & -> & _)]; [done|].
  by destruct (Hne s).
Qed.

Lemma preserves_execute cs s :
  (∀ now enforce st st', I st → exec_stmt now enforce s st = Ok st' → I st') →
  preserves (on_db I) (execute E cs s).
Proof.
  intros Hs w Hw. unfold on_db, execute.
  destruct (db_do_cases (Execute s) w) as [->|(s' & st & [= <-] & _ & Hst & ->)];
    [done|].
  by eapply Hs.
Qed.

End Invariant.

Section UniqueKeys.
Context (E : environment) (t : string).

Lemma unique_keys_set_table fq rows st :
  unique_keys t st → (t = fq → NoDup (row_key <$> rows)) →
  unique_keys t (set_table fq rows st).
Proof.
  intros Hst Hrows rows'. unfold set_table. simpl.
  rewrite lookup_insert. case_decide as Ht.
  - intros [= <-]. by apply Hrows.
  - apply Hst.
Qed.

Lemma unique_keys_filter fq (P : stored_row → Prop) `{!∀ r, Decision (P r)}
    rows st :
  unique_keys t st → tables st !! fq = Some rows →
  t = fq → NoDup (row_key <$> filter P rows).
Proof.
  intros Hst Hrows <-. eapply sublist_NoDup; [by eapply Hst|].
  apply fmap_sublist, sublist_filter.
Qed.

Lemma exec_ddl_unique now enforce s st st' :
  (∀ fq rec, s ≠ InsertInto fq rec) →
  unique_keys t st → exec_stmt now enforce s st = Ok st' → unique_keys t st'.
Proof.
  intros Hs Hst. destruct s as [name|fq|fq d sym|fq rec]; simpl.
  - intros [= <-]. exact Hst.
  - destruct (tables st !! fq) eqn:Hfq; intros [= <-]; [done|].
    apply unique_keys_set_table; [done|constructor].
  - destruct (tables st !! fq) as [rows|] eqn:Hfq; intros [= <-].
    apply unique_keys_set_table; [done|]. by eapply unique_keys_filter.
  - by destruct (Hs fq rec).
Qed.

(** The delete and the insert of one turn, together, keep the keys
    unique, wherever the turn stops. *)
Lemma preserves_turn cs fq rec :
  preserves (on_db (unique_keys t))
    (execute E cs (DeleteFrom fq (as_of_date rec) (symbol rec)) ;;
     execute E cs (InsertInto fq rec)).
Proof.
  intros w Hw. unfold on_db, bind, execute, db_do in *.
  destruct (db_fault E (length (db_calls w))); [done|].
  simpl exec_stmt. destruct (tables (db w) !! fq) as [rows|] eqn:Hfq; [|done].
  pose proof (unique_keys_filter fq
    (λ r, row_key r ≠ (as_of_date rec, symbol rec)) rows (db w) Hw Hfq) as Hdel.
  cbn [stdout requests db_calls slept db schemas tables].
  destruct (db_fault E _); simpl.
  { by apply unique_keys_set_table. }
  rewrite lookup_insert_eq. destruct (_ && _); simpl.
  { by apply unique_keys_set_table. }
  rewrite set_table_twice.
  apply (unique_keys_set_table fq _ (db w) Hw). intros <-.
  apply (upsert_row_unique _ rec rows). by eapply Hw.
Qed.

Lemma upsert_preserves_unique records :
  preserves (on_db (unique_keys t)) (insert_history_into_snowflake E records).
Proof.
  unfold insert_history_into_snowflake.
  destruct (is_nil records); [apply preserves_ret|].
  repeat (apply preserves_bind; [apply preserves_getenv|intros ?]).
  apply preserves_bind.
  { unfold connect. apply preserves_bind;
      [by apply preserves_db_do_other|intros _].
    apply preserves_ret. }
  intros ctx. apply preserves_try_finally.
  - unfold new_cursor. apply preserves_bind;
      [by apply preserves_db_do_other|intros _].
    apply preserves_ret.
  - intros cs.
    apply preserves_bind.
    { apply preserves_execute. intros ????. by apply exec_ddl_unique. }
    intros _. apply preserves_bind.
    { apply preserves_execute. intros ????. by apply exec_ddl_unique. }
    intros _. apply preserves_bind.
    { apply preserves_for_each. intros rec. apply preserves_turn. }
    intros _. unfold commit. by apply preserves_db_do_other.
  - intros cs. apply preserves_bind; [apply preserves_local|intros c].
    apply preserves_bind; [by apply preserves_db_do_other|intros _].
    by apply preserves_db_do_other.
Qed.

End UniqueKeys.

Lemma insert_follows_delete_loop fq records :
  insert_follows_delete (loop_calls fq records).
Proof.
  induction records as [|r records IH]; intros i fq' rec; simpl.
  - by rewrite lookup_nil.
  - destruct i as [|[|i]]; simpl.
    + done.
    + intros [= <- <-]. by exists 0%nat.
    + intros (j & -> & Hj)%IH. by exists (S (S j)).
Qed.

Lemma insert_follows_delete_app_l pre calls :
  Forall (λ call, ¬ is_insert call) pre →
  insert_follows_delete calls → insert_follows_delete (pre ++ calls).
Proof.
  intros Hpre Hcalls i fq rec Hi.
  apply lookup_app_Some in Hi as [Hi|[Hlen Hi]].
  - rewrite Forall_forall in Hpre. destruct (Hpre _ (list_elem_of_lookup_2 _ _ _ Hi)).
    by exists fq, rec.
  - apply Hcalls in Hi as (j & Hij & Hj). exists (length pre + j)%nat.
    split; [lia|]. rewrite lookup_app_r by lia.
    by replace (length pre + j - length pre)%nat with j by lia.
Qed.

Lemma insert_follows_delete_app_r calls post :
  Forall (λ call, ¬ is_insert call) post →
  insert_follows_delete calls → insert_follows_delete (calls ++ post).
Proof.
  intros Hpost Hcalls i fq rec Hi.
  apply lookup_app_Some in Hi as [Hi|[Hlen Hi]].
  - apply Hcalls in Hi as (j & -> & Hj). exists j. split; [done|].
    by apply lookup_app_l_Some.
  - rewrite Forall_forall in Hpost.
    destruct (Hpost _ (list_elem_of_lookup_2 _ _ _ Hi)). by exists fq, rec.
Qed.

Lemma insert_follows_delete_run E records :
  insert_follows_delete (upsert_calls E records).
Proof.
  unfold upsert_calls.
  apply insert_follows_delete_app_l.
  { repeat constructor; by intros (? & ? & ?). }
  apply insert_follows_delete_app_r.
  { repeat constructor; by intros (? & ? & ?). }
  apply insert_follows_delete_loop.
Qed.

(** C4. From a table with at most one row per (AS_OF_DATE, SYMBOL), a run
    over any list, however it ends, leaves at most one row per pair (in
    STOCK_PRICES as in any table [t]). When no call fails for a reason of
    the warehouse's own, the run ends normally even if the warehouse
    enforces the primary key, and every insert it sent came right after the
    delete of the same key: the uniqueness is the script's doing, not a
    rejected insert. *)
Theorem upsert_keeps_keys_unique E t records w :
  unique_keys t (db w) →
  unique_keys t (db (insert_history_into_snowflake E records w).2) ∧
  (fault_free E → configured E →
   (insert_history_into_snowflake E records w).1 = Ok tt ∧
   ∃ calls,
     db_calls (insert_history_into_snowflake E records w).2 = db_calls w ++ calls ∧
     insert_follows_delete calls).
Proof.
  intros Hw. split; [by apply upsert_preserves_unique|].
  intros Hff Hcfg. destruct (decide (records = [])) as [->|Hne].
  - split; [done|]. exists []. simpl. rewrite app_nil_r. split; [done|].
    intros i ??. by rewrite lookup_nil.
  - rewrite upsert_run by done. split; [done|].
    exists (upsert_calls E records). split; [done|].
    apply insert_follows_delete_run.
Qed.

(** C9, where the code departs from it. When the connection is made but
    [ctx.cursor()] raises, the [finally] block reads the unassigned local
    [cs]: the call ends with [UnboundLocalError] in place of the cursor's
    exception, and [ctx.close()] is never reached. *)
Theorem upsert_cursor_failure_leaks_connection E records w e :
  records ≠ [] → configured E →
  db_fault E (length (db_calls w)) = None →
  db_fault E (S (length (db_calls w))) = Some e →
  insert_history_into_snowflake E records w =
    (Raise (UnboundLocalError "cs"),
     World (stdout w) (requests w)
       (db_calls w ++ [Connect (connect_args_of E); Cursor]) (slept w) (db w)).
Proof.
  intros Hne Hcfg Hconn Hcur.
  assert (is_nil records = false) as Hnil by by destruct records.
  unfold insert_history_into_snowflake. rewrite Hnil.
  unfold configured in Hcfg.
  repeat match goal with
         | H : Forall _ (_ :: _) |- _ => apply Forall_cons in H as [? H]
         end.
  do 6 (rewrite getenv_configured, bind_ret by done).
  change (ConnectArgs _ _ _ _ _ _ _) with (connect_args_of E).
  unfold connect, bind at 1, bind at 1, db_do at 1. rewrite Hconn.
  unfold ret at 1. unfold try_finally, new_cursor, bind at 1, db_do at 1.
  cbn [stdout requests db_calls slept db].
  rewrite length_app, Nat.add_1_r, Hcur. simpl.
  by rewrite <- app_assoc.
Qed.

(** ** The writer: which calls a run makes, faults included *)

Section Calls.
Context (E : environment).

(** Every call is recorded, whatever comes of it. *)
Lemma db_do_calls call w :
  db_calls (db_do E call w).2 = db_calls w ++ [call].
Proof.
  unfold db_do. destruct (db_fault E _); [done|].
  destruct call; try done. by destruct (exec_stmt _ _ _ _).
Qed.

Lemma sends_ret : sends (ret tt) [].
Proof. intros w. exists 0%nat. simpl. by rewrite app_nil_r. Qed.

Lemma sends_db_do call : sends (db_do E call) [call].
Proof.
  intros w. exists 1%nat. simpl. split; [done|]. split; [|done].
  apply db_do_calls.
Qed.

Lemma sends_bind (m1 m2 : M unit) (calls1 calls2 : list db_call) :
  sends m1 calls1 → sends m2 calls2 → sends (m1 ;; m2) (calls1 ++ calls2).
Proof.
  intros H1 H2 w. destruct (H1 w) as (k1 & Hk1 & Hcalls1 & Hok1).
  unfold bind. destruct (m1 w) as [[[]|e] w1]; simpl in *.
  - rewrite (Hok1 eq_refl) in Hcalls1. rewrite firstn_all in Hcalls1.
    destruct (H2 w1) as (k2 & Hk2 & Hcalls2 & Hok2).
    exists (length calls1 + k2)%nat. rewrite length_app.
    split; [lia|]. split.
    + by rewrite Hcalls2, Hcalls1, <- app_assoc, take_app_add.
    + intros Hret. rewrite (Hok2 Hret). done.
  - exists k1. rewrite length_app. split; [lia|]. split; [|done].
    by rewrite Hcalls1, take_app_le.
Qed.

Lemma sends_loop cs fq records :
  sends
    (for_each records (λ rec,
       execute E cs (DeleteFrom fq (as_of_date rec) (symbol rec)) ;;
       execute E cs (InsertInto fq rec)))
    (loop_calls fq records).
Proof.
  induction records as [|rec records IH]; simpl; [apply sends_ret|].
  apply (sends_bind _ _ [_; _]); [|exact IH].
  apply (sends_bind _ _ [_] [_]); apply sends_db_do.
Qed.

(** Once the cursor exists: the [try] block makes its calls up to the
    first that raises, then [finally] closes the cursor, and closes the
    connection unless closing the cursor raised. The outcome is that of the
    [try] block unless a close raises. In particular the commit, the last
    call of the block, is made only after every statement was accepted. *)
Lemma upsert_after_cursor records w :
  records ≠ [] → configured E →
  db_fault E (length (db_calls w)) = None →
  db_fault E (S (length (db_calls w))) = None →
  ∃ (k : nat) (r : result unit),
    (k ≤ length (try_calls E records))%nat ∧
    (r = Ok tt → k = length (try_calls E records)) ∧
    db_calls (insert_history_into_snowflake E records w).2 =
      db_calls w ++ [Connect (connect_args_of E); Cursor]
      ++ take k (try_calls E records)
      ++ CursorClose ::
         match db_fault E (length (db_calls w) + 2 + k) with
         | Some _ => []
         | None => [ConnectionClose]
         end ∧
    (insert_history_into_snowflake E records w).1 =
      match db_fault E (length (db_calls w) + 2 + k),
            db_fault E (length (db_calls w) + 3 + k) with
      | Some e, _ => Raise e
      | None, Some e => Raise e
      | None, None => r
      end.
Proof.
  intros Hne Hcfg Hconn Hcur.
  assert (is_nil records = false) as Hnil by by destruct records.
  remember (insert_history_into_snowflake E records w) as out eqn:Hout.
  unfold insert_history_into_snowflake in Hout. rewrite Hnil in Hout.
  unfold configured in Hcfg.
  repeat match goal with
         | H : Forall _ (_ :: _) |- _ => apply Forall_cons in H as [? H]
         end.
  do 6 (rewrite getenv_configured, bind_ret in Hout by done).
  change (ConnectArgs _ _ _ _ _ _ _) with (connect_args_of E) in Hout.
  change (env_or_empty E "SNOWFLAKE_DB" +:+ "." +:+ getenv_default E "SNOWFLAKE_RAW_SCHEMA" "RAW" +:+ ".STOCK_PRICES")
    with (fq_table_of E) in Hout.
  change (env_or_empty E "SNOWFLAKE_DB" +:+ "." +:+ getenv_default E "SNOWFLAKE_RAW_SCHEMA" "RAW")
    with (schema_of E) in Hout.
  unfold connect, bind at 1, bind at 1, db_do at 1 in Hout. rewrite Hconn in Hout.
  unfold ret at 1 in Hout.
  unfold try_finally, new_cursor, bind at 1, db_do at 1 in Hout.
  cbn [stdout requests db_calls slept db] in Hout.
  rewrite length_app, Nat.add_1_r, Hcur in Hout. unfold ret at 1 in Hout.
  match type of Hout with
  | context [let '(r, w1) := ?body ?w0 in _] =>
    assert (sends body (try_calls E records)) as Hsends;
      [|destruct (Hsends w0) as (k & Hk & Hcalls & Hok);
        destruct (body w0) as [r w1]]
  end.
  { unfold try_calls.
    apply (sends_bind _ _ [_]); [apply sends_db_do|].
    apply (sends_bind _ _ [_]); [apply sends_db_do|].
    apply sends_bind; [apply sends_loop|apply sends_db_do]. }
  exists k, r. cbn [fst snd db_calls] in Hcalls, Hok.
  split; [done|]. split; [done|].
  cbn [local] in Hout. rewrite bind_ret in Hout.
  unfold cursor_close, connection_close, bind, db_do in Hout.
  rewrite Hcalls, !length_app, length_take_le in Hout by done.
  cbn [length] in Hout.
  replace (length (db_calls w) + 1 + 1 + k)%nat
    with (length (db_calls w) + 2 + k)%nat in Hout by lia.
  destruct (db_fault E (length (db_calls w) + 2 + k)) as [e1|].
  { subst out. simpl. split; [|done]. by rewrite <- !app_assoc. }
  cbn [stdout requests db_calls slept db] in Hout.
  rewrite !length_app, length_take_le in Hout by done.
  cbn [length] in Hout.
  replace (length (db_calls w) + 1 + 1 + k + 1)%nat
    with (length (db_calls w) + 3 + k)%nat in Hout by lia.
  destruct (db_fault E (length (db_calls w) + 3 + k)) as [e2|];
    subst out; simpl; (split; [by rewrite <- !app_assoc|done]).
Qed.

Lemma last_only_in_full_take {A} (x : A) (pre : list A) (k : nat) :
  x ∉ pre → (k ≤ length (pre ++ [x]))%nat →
  x ∈ take k (pre ++ [x]) → k = length (pre ++ [x]).
Proof.
  intros Hpre Hk Hin. rewrite length_app in *. simpl in *.
  destruct (decide (k = length pre + 1)%nat) as [|Hne]; [done|].
  rewrite take_app_le in Hin by lia.
  apply elem_of_take in Hin as (i & Hi & _).
  destruct Hpre. apply list_elem_of_lookup. by exists i.
Qed.

Lemma loop_calls_no_commit fq records : Commit ∉ loop_calls fq records.
Proof.
  induction records as [|rec records IH]; simpl.
  - apply not_elem_of_nil.
  - by repeat (apply not_elem_of_cons; split; [done|]).
Qed.

(** The commit is the last call of the [try] block and occurs nowhere
    before: it is made only when every statement before it was accepted. *)
Lemma commit_only_at_end records k :
  (k ≤ length (try_calls E records))%nat →
  Commit ∈ take k (try_calls E records) →
  k = length (try_calls E records).
Proof.
  unfold try_calls. rewrite app_assoc. apply last_only_in_full_take.
  apply not_elem_of_app. split; [|apply loop_calls_no_commit].
  by repeat (apply not_elem_of_cons; split; [done|]); apply not_elem_of_nil.
Qed.

(** The driver over an empty ticker list: nothing is fetched or written,
    and the total it reports is the one it started from. *)
Lemma main_loop_no_tickers {lib : PyLib} (total : nat) (w : world) :
  main_loop E [] total w = (Ok total, w).
Proof. reflexivity. Qed.

End Calls.

(** ** The fetcher on concrete responses *)

Section FetcherRuns.
Import Scenario.

Lemma fetch_sorted_by_date_witness :
  fetch_history_for_symbol (env_with (Response 200 (Ok (daily newest_first))) no_fault)
      "ABC" fresh
    = (Ok oldest_first,
       World [] [query_url "ABC" "demo"] [] 0 (Store ∅ ∅)) ∧
  StronglySorted date_le (as_of_date <$> oldest_first).
Proof.
  assert (fetch_history_for_symbol
            (env_with (Response 200 (Ok (daily newest_first))) no_fault) "ABC" fresh
          = (Ok oldest_first, World [] [query_url "ABC" "demo"] [] 0 (Store ∅ ∅)))
    as Hrun by (vm_compute; reflexivity).
  split; [exact Hrun|].
  exact (fetch_sorted_by_date _ "ABC" fresh _ oldest_first Hrun).
Defined.

Lemma fetch_rate_limited_witness :
  environ (env_with rate_limited no_fault) !! "ALPHAVANTAGE_API_KEY" = Some "demo" ∧
  requests_get (env_with rate_limited no_fault) (query_url "ABC" "demo") 20
    = Ok rate_limited ∧
  status_code rate_limited = 429 ∧
  fetch_history_for_symbol (env_with rate_limited no_fault) "ABC" fresh
    = (Ok [], World [Warn429 "ABC"] [query_url "ABC" "demo"] [] 0 (Store ∅ ∅)).
Proof.
  assert (environ (env_with rate_limited no_fault) !! "ALPHAVANTAGE_API_KEY"
          = Some "demo") as Hkey by (vm_compute; reflexivity).
  split; [exact Hkey|]. split; [reflexivity|]. split; [reflexivity|].
  exact (fetch_rate_limited (env_with rate_limited no_fault) "ABC" "demo"
           rate_limited fresh Hkey eq_refl eq_refl).
Defined.

(** C5, as stated, fails: a stream in a one-byte encoding cannot write the
    warning sign, so the call that was answered 429 raises, and nothing
    was printed. *)
Lemma fetch_rate_limited_raises :
  status_code rate_limited = 429 ∧
  fetch_history_for_symbol (env_printing_to one_byte rate_limited) "ABC" fresh
  = (Raise UnicodeEncodeError,
     World [] [query_url "ABC" "demo"] [] 0 (Store ∅ ∅)).
Proof. split; [reflexivity|]. vm_compute; reflexivity. Qed.

Lemma fetch_guarded_failures_witness :
  environ (env_with rate_note no_fault) !! "ALPHAVANTAGE_API_KEY" = Some "demo" ∧
  requests_get (env_with rate_note no_fault) (query_url "ABC" "demo") 20
    = Ok rate_note ∧
  status_code rate_note ≠ 429 ∧ ok rate_note = true ∧
  (fetch_history_for_symbol (env_with rate_note no_fault) "ABC" fresh).1 = Ok [].
Proof.
  assert (environ (env_with rate_note no_fault) !! "ALPHAVANTAGE_API_KEY"
          = Some "demo") as Hkey by (vm_compute; reflexivity).
  assert (status_code rate_note ≠ 429) as H429 by (simpl; lia).
  split; [exact Hkey|]. split; [reflexivity|].
  split; [exact H429|]. split; [reflexivity|].
  pose proof (fetch_guarded_failures (env_with rate_note no_fault) "ABC" "demo"
                rate_note fresh Hkey eq_refl) as Hguards.
  cbv zeta in Hguards. destruct Hguards as (_ & _ & Hpast).
  destruct (Hpast H429 eq_refl) as (Hmissing & _).
  exact (Hmissing _ eq_refl eq_refl).
Defined.

(** C1, as stated, fails: a body that is not JSON, a date key that is not
    YYYY-MM-DD and a price that is not a number each make the call raise;
    so does, on a UTF-8 stream, a message with a lone surrogate, after the
    line with the keys was printed. *)
Lemma fetch_raises_past_the_guards :
  (fetch_history_for_symbol (env_with not_json no_fault) "ABC" fresh).1
    = Raise JSONDecodeError ∧
  (fetch_history_for_symbol (env_with bad_date no_fault) "ABC" fresh).1
    = Raise ValueError ∧
  (fetch_history_for_symbol (env_with bad_number no_fault) "ABC" fresh).1
    = Raise ValueError ∧
  fetch_history_for_symbol (env_printing_to utf8 surrogate_note) "ABC" fresh
    = (Raise UnicodeEncodeError,
       World [WarnUnexpected "ABC" ["Information"]] [query_url "ABC" "demo"]
         [] 0 (Store ∅ ∅)).
Proof. split; [|split; [|split]]; vm_compute; reflexivity. Qed.

End FetcherRuns.

(** ** The writer on concrete runs *)

Section WriterRuns.
Import Scenario.

Lemma env_with_fault_free resp : fault_free (env_with resp no_fault).
Proof. by intros n. Qed.

Lemma env_with_configured resp fault : configured (env_with resp fault).
Proof. unfold configured. repeat constructor; by eexists; vm_compute. Qed.

Lemma upsert_empty_run :
  insert_history_into_snowflake (Environment ∅ (λ _ _, Raise RequestException)
      one_byte (λ _, Some ProgrammingError) clock true) [] fresh
  = (Ok tt, fresh).
Proof. reflexivity. Qed.

Lemma upsert_last_occurrence_wins_witness :
  fault_free abc_env ∧ configured abc_env ∧
  abc_stale ∈ [abc_stale; xyz_record; abc_record] ∧
  (insert_history_into_snowflake abc_env [abc_stale; xyz_record; abc_record] fresh).1
    = Ok tt ∧
  ∃ row,
    rows_with (key_of abc_stale)
      (stock_prices abc_env
         (insert_history_into_snowflake abc_env
            [abc_stale; xyz_record; abc_record] fresh).2) = [row] ∧
    last (records_with (key_of abc_stale) [abc_stale; xyz_record; abc_record])
      = Some (row_values row).
Proof.
  assert (abc_stale ∈ [abc_stale; xyz_record; abc_record]) as Hin by by left.
  split; [apply env_with_fault_free|]. split; [apply env_with_configured|].
  split; [exact Hin|].
  exact (upsert_last_occurrence_wins abc_env _ abc_stale fresh
           (env_with_fault_free _) (env_with_configured _ _) Hin).
Defined.

Lemma upsert_twice_one_row_per_key_witness :
  fault_free abc_env ∧ configured abc_env ∧
  abc_record ∈ [abc_record; xyz_record] ∧
  ∃ row j,
    rows_with (key_of abc_record)
      (stock_prices abc_env
         (insert_history_into_snowflake abc_env [abc_record; xyz_record]
            (insert_history_into_snowflake abc_env [abc_record; xyz_record] fresh).2).2)
      = [row] ∧
    row_values row = abc_record ∧ fetched_at row = clock j ∧ (11 ≤ j < 22)%nat.
Proof.
  assert (abc_record ∈ [abc_record; xyz_record]) as Hin by by left.
  split; [apply env_with_fault_free|]. split; [apply env_with_configured|].
  split; [exact Hin|].
  destruct (upsert_twice_one_row_per_key abc_env _ abc_record fresh
              (env_with_fault_free _) (env_with_configured _ _) Hin)
    as (_ & row & j & Hrows & Hlast & Hat & Hj).
  exists row, j. split; [exact Hrows|]. split; [|split; [exact Hat|exact Hj]].
  by injection Hlast.
Defined.

Lemma upsert_keeps_other_symbol_witness :
  fault_free abc_env ∧ configured abc_env ∧
  as_of_date abc_record = as_of_date xyz_record ∧
  symbol abc_record ≠ symbol xyz_record ∧
  row_values <$> rows_with (key_of abc_record)
    (stock_prices abc_env
       (insert_history_into_snowflake abc_env [abc_record; xyz_record] fresh).2)
  = [abc_record] ∧
  row_values <$> rows_with (key_of xyz_record)
    (stock_prices abc_env
       (insert_history_into_snowflake abc_env [abc_record; xyz_record] fresh).2)
  = [xyz_record].
Proof.
  assert (symbol abc_record ≠ symbol xyz_record) as Hsym by done.
  split; [apply env_with_fault_free|]. split; [apply env_with_configured|].
  split; [reflexivity|]. split; [exact Hsym|].
  destruct (upsert_keeps_other_symbol abc_env abc_record xyz_record fresh
              (env_with_fault_free _) (env_with_configured _ _) eq_refl Hsym)
    as (Habc & Hxyz & _).
  split; [exact Habc|exact Hxyz].
Defined.

Example two_symbols_one_date :
  row_values <$> stock_prices abc_env
    (insert_history_into_snowflake abc_env [abc_record; xyz_record] fresh).2
  = [abc_record; xyz_record].
Proof. vm_compute. reflexivity. Qed.

Lemma upsert_keeps_keys_unique_witness :
  unique_keys (fq_table_of abc_env) (db fresh) ∧
  NoDup (row_key <$> stock_prices abc_env
           (insert_history_into_snowflake abc_env
              [abc_stale; xyz_record; abc_record] fresh).2) ∧
  (insert_history_into_snowflake abc_env [abc_stale; xyz_record; abc_record] fresh).1
    = Ok tt.
Proof.
  assert (unique_keys (fq_table_of abc_env) (db fresh)) as Hfresh.
  { intros rows Ht. simpl in Ht. by rewrite lookup_empty in Ht. }
  split; [exact Hfresh|].
  destruct (upsert_keeps_keys_unique abc_env (fq_table_of abc_env)
              [abc_stale; xyz_record; abc_record] fresh Hfresh) as [Huniq Hrun].
  split.
  - apply Huniq. vm_compute. reflexivity.
  - exact (proj1 (Hrun (env_with_fault_free _) (env_with_configured _ _))).
Defined.

Lemma upsert_cursor_failure_leaks_connection_witness :
  [abc_record] ≠ [] ∧
  configured (env_with rate_limited cursor_fails) ∧
  db_fault (env_with rate_limited cursor_fails) 0 = None ∧
  db_fault (env_with rate_limited cursor_fails) 1 = Some (DatabaseError 250001) ∧
  insert_history_into_snowflake (env_with rate_limited cursor_fails) [abc_record] fresh
  = (Raise (UnboundLocalError "cs"),
     World [] []
       [Connect (ConnectArgs "acct" "etl" "secret" "LOADER" "WH" "DBT_DEMO" "RAW");
        Cursor]
       0 (Store ∅ ∅)).
Proof.
  assert ([abc_record] ≠ []) as Hne by done.
  split; [exact Hne|]. split; [apply env_with_configured|].
  split; [reflexivity|]. split; [reflexivity|].
  exact (upsert_cursor_failure_leaks_connection (env_with rate_limited cursor_fails)
           [abc_record] fresh _ Hne (env_with_configured _ _) eq_refl eq_refl).
Defined.

(** C6. The end-to-end scenario: for "ABC" and the one-entry payload the
    fetcher returns the single record (2024-01-02, "ABC", 10.0, 12.0, 9.0,
    11.0, 1000), prices as floats and volume as an integer; writing that
    record twice succeeds and leaves, from any state of the table, exactly
    one row for its key, with those values; and from an empty warehouse
    the table is that one row. *)
Theorem abc_end_to_end :
  (fetch_history_for_symbol abc_env "ABC" fresh).1
    = Ok [PriceRecord (Date 2024 1 2) "ABC" 10 12 9 11 1000] ∧
  (∀ w,
     let w1 := (insert_history_into_snowflake abc_env [abc_record] w).2 in
     (insert_history_into_snowflake abc_env [abc_record] w1).1 = Ok tt ∧
     row_values <$> rows_with (key_of abc_record)
       (stock_prices abc_env (insert_history_into_snowflake abc_env [abc_record] w1).2)
     = [abc_record]) ∧
  row_values <$> stock_prices abc_env
    (insert_history_into_snowflake abc_env [abc_record]
       (insert_history_into_snowflake abc_env [abc_record] fresh).2).2
  = [abc_record].
Proof.
  split; [vm_compute; reflexivity|]. split; [|vm_compute; reflexivity].
  intros w w1.
  destruct (upsert_one_row_per_key abc_env [abc_record] abc_record w1
              (env_with_fault_free _) (env_with_configured _ _))
    as (row & j & Hok & Hrows & Hlast & _); [by left|].
  split; [exact Hok|]. rewrite Hrows. simpl. f_equal. by injection Hlast.
Qed.

End WriterRuns.

(** * Further properties of the fetcher *)

Section FetcherMore.
Context {lib : PyLib} (E : environment).

(** X1. Without ALPHAVANTAGE_API_KEY in the environment the fetcher raises
    [KeyError] before anything else: no request is sent and nothing is
    printed, whatever the provider would have answered. *)
Theorem fetch_missing_api_key (symbol : string) (w : world) :
  environ E !! "ALPHAVANTAGE_API_KEY" = None →
  fetch_history_for_symbol E symbol w
  = (Raise (KeyError "ALPHAVANTAGE_API_KEY"), w).
Proof. apply fetch_no_key. Qed.

(** X2. An exception of [requests.get] (no connection, timeout) is the
    outcome of the call: nothing is caught or printed, and the one request
    is the only trace. *)
Theorem fetch_request_failure (symbol api_key : string) (e : exn) (w : world) :
  environ E !! "ALPHAVANTAGE_API_KEY" = Some api_key →
  requests_get E (query_url symbol api_key) 20 = Raise e →
  fetch_history_for_symbol E symbol w
  = (Raise e,
     World (stdout w) (requests w ++ [query_url symbol api_key])
       (db_calls w) (slept w) (db w)).
Proof.
  intros Hkey Hresp. unfold fetch_history_for_symbol, getenv, bind at 1.
  rewrite Hkey. unfold ret at 1, bind at 1, http_get. by rewrite Hresp.
Qed.

(** X3. A 4xx or 5xx status other than 429 makes the fetcher print one
    warning that carries the status code and return the empty list; the
    body is never decoded, so it may be anything. When the stream refuses
    the warning, the exception of [print] is the outcome and nothing was
    written. *)
Theorem fetch_http_error (symbol api_key : string) (resp : response) (w : world) :
  environ E !! "ALPHAVANTAGE_API_KEY" = Some api_key →
  requests_get E (query_url symbol api_key) 20 = Ok resp →
  status_code resp ≠ 429 →
  400 ≤ status_code resp < 600 →
  fetch_history_for_symbol E symbol w
  = match stdout_fault E (length (stdout w))
            (WarnHttp symbol (status_code resp)) with
    | None =>
      (Ok [],
       World (stdout w ++ [WarnHttp symbol (status_code resp)])
         (requests w ++ [query_url symbol api_key])
         (db_calls w) (slept w) (db w))
    | Some e =>
      (Raise e,
       World (stdout w) (requests w ++ [query_url symbol api_key])
         (db_calls w) (slept w) (db w))
    end.
Proof.
  intros Hkey Hresp H429 Hrange.
  rewrite (fetch_on_response _ _ _ _ _ Hkey Hresp). unfold on_response, ok.
  apply Z.eqb_neq in H429. rewrite H429.
  replace (400 <=? status_code resp) with true by (symmetry; apply Z.leb_le; lia).
  replace (status_code resp <? 600) with true by (symmetry; apply Z.ltb_lt; lia).
  simpl.
  destruct (stdout_fault E (length (stdout w)) (WarnHttp symbol (status_code resp)));
    simpl; by rewrite ?app_nil_r.
Qed.

(** X4. A successful response whose JSON object has no "Time Series
    (Daily)" key makes the fetcher print two lines and return the empty
    list: the object's keys in their order, and a message that is the
    "Information" entry when it is truthy, else the "Note" entry when that
    is truthy, else the whole object. When the stream refuses the first
    line, or takes it and refuses the second, the exception of that
    [print] is the outcome, with what was written before it. *)
Theorem fetch_missing_series_key (symbol api_key : string) (resp : response)
    (d : list (string * pyval)) (w : world) :
  environ E !! "ALPHAVANTAGE_API_KEY" = Some api_key →
  requests_get E (query_url symbol api_key) 20 = Ok resp →
  status_code resp ≠ 429 → ok resp = true →
  json resp = Ok (PDict d) →
  dict_get "Time Series (Daily)" d = None →
  let info := default PNone (dict_get "Information" d) in
  let note := default PNone (dict_get "Note" d) in
  let keys := WarnUnexpected symbol (d.*1) in
  let message :=
    WarnMessage (if py_truthy info then info
                 else if py_truthy note then note else PDict d) in
  let n := length (stdout w) in
  let with_lines := λ lines,
    World (stdout w ++ lines) (requests w ++ [query_url symbol api_key])
      (db_calls w) (slept w) (db w) in
  fetch_history_for_symbol E symbol w
  = match stdout_fault E n keys, stdout_fault E (S n) message with
    | Some e, _ => (Raise e, with_lines [])
    | None, Some e => (Raise e, with_lines [keys])
    | None, None => (Ok [], with_lines [keys; message])
    end.
Proof.
  intros Hkey Hresp H429 Hok Hjson Hts info note keys message n with_lines.
  rewrite (fetch_on_response _ _ _ _ _ Hkey Hresp). unfold on_response.
  apply Z.eqb_neq in H429. rewrite H429, Hok, Hjson, Hts.
  cbn [negb]. fold info note.
  assert (py_or (py_or info note) (PDict d)
          = if py_truthy info then info
            else if py_truthy note then note else PDict d) as ->.
  { unfold py_or. destruct (py_truthy info) eqn:Hinfo; [by rewrite Hinfo|done]. }
  cbn [fst snd printed]. fold n keys message. unfold with_lines.
  destruct (stdout_fault E n keys); [done|].
  by destruct (stdout_fault E (S n) message).
Qed.

(** What a returned record says about the entry it was built from. *)
Lemma parse_entry_ok (sym date_str : string) (vals : pyval) (rec : price_record) :
  parse_entry sym (date_str, vals) = Ok rec →
  symbol rec = sym ∧
  strptime_ymd date_str = Ok (as_of_date rec) ∧
  py_getitem vals "1. open" ≫= py_float = Ok (open_price rec) ∧
  py_getitem vals "2. high" ≫= py_float = Ok (high_price rec) ∧
  py_getitem vals "3. low" ≫= py_float = Ok (low_price rec) ∧
  py_getitem vals "4. close" ≫= py_float = Ok (close_price rec) ∧
  py_getitem vals "5. volume" ≫= py_int = Ok (volume rec).
Proof.
  unfold parse_entry.
  destruct (strptime_ymd date_str) as [d|]; [|done]. simpl.
  destruct (py_getitem vals "1. open" ≫= py_float) as [o|]; [|done]. simpl.
  destruct (py_getitem vals "2. high" ≫= py_float) as [h|]; [|done]. simpl.
  destruct (py_getitem vals "3. low" ≫= py_float) as [l|]; [|done]. simpl.
  destruct (py_getitem vals "4. close" ≫= py_float) as [c|]; [|done]. simpl.
  destruct (py_getitem vals "5. volume" ≫= py_int) as [v|]; [|done]. simpl.
  by intros [= <-].
Qed.

Lemma collect_Permutation {A B} (f : A → result B) (xs xs' : list A) :
  xs ≡ₚ xs' → ∀ ys, collect f xs = Ok ys →
  ∃ ys', collect f xs' = Ok ys' ∧ ys ≡ₚ ys'.
Proof.
  induction 1 as [|x xs xs' _ IH|x y xs|xs xs' xs'' _ IH1 _ IH2]; intros ys; simpl.
  - intros [= <-]. by exists [].
  - destruct (f x) as [b|]; [|done]. simpl.
    destruct (collect f xs) as [bs|] eqn:Hxs; [|done]. simpl. intros [= <-].
    destruct (IH bs eq_refl) as (bs' & -> & Hperm). simpl.
    exists (b :: bs'). by rewrite Hperm.
  - destruct (f y) as [b|]; [|done]. simpl.
    destruct (f x) as [a|]; [|done]. simpl.
    destruct (collect f xs) as [bs|]; [|done]. simpl. intros [= <-].
    exists (a :: b :: bs). split; [done|]. apply Permutation_swap.
  - intros Hys. destruct (IH1 ys Hys) as (ys' & Hys' & Hperm1).
    destruct (IH2 ys' Hys') as (ys'' & Hys'' & Hperm2).
    exists ys''. split; [done|]. by rewrite Hperm1.
Qed.

(** A served time series, when the call returns: the list is the parsed
    entries, sorted. *)
Lemma fetch_served (sym : string) (ts : list (string * pyval)) (w : world) :
  serves E sym ts →
  (fetch_history_for_symbol E sym w).1 =
    match collect (parse_entry sym) ts with
    | Ok parsed => Ok (sort_by date_ltb as_of_date parsed)
    | Raise e => Raise e
    end.
Proof.
  intros (api_key & resp & d & Hkey & Hresp & H429 & Hok & Hjson & Hts).
  rewrite (fetch_on_response _ _ _ _ _ Hkey Hresp). unfold on_response.
  apply Z.eqb_neq in H429. rewrite H429, Hok, Hjson, Hts. simpl.
  by destruct (collect _ _).
Qed.

(** X5. When a served time series makes the call return, the list holds
    one record per entry of the series, none dropped and none added: it
    is a rearrangement of the records parsed from the entries in payload
    order, and every record carries the queried symbol. *)
Theorem fetch_one_record_per_entry (sym : string) (ts : list (string * pyval))
    (w : world) (records : list price_record) :
  serves E sym ts →
  (fetch_history_for_symbol E sym w).1 = Ok records →
  ∃ parsed,
    Forall2 (λ item rec, parse_entry sym item = Ok rec) ts parsed ∧
    records ≡ₚ parsed ∧
    length records = length ts ∧
    Forall (λ rec, symbol rec = sym) records.
Proof.
  intros Hserved. rewrite (fetch_served _ _ _ Hserved).
  destruct (collect (parse_entry sym) ts) as [parsed|] eqn:Hparsed; [|done].
  intros [= <-]. apply collect_ok_inv in Hparsed.
  assert (sort_by date_ltb as_of_date parsed ≡ₚ parsed) as Hperm
    by apply sort_by_perm.
  exists parsed. split; [done|]. split; [done|]. split.
  - rewrite Hperm. symmetry. by eapply Forall2_length.
  - rewrite Hperm. clear Hperm Hserved.
    induction Hparsed as [|[k v] rec ts parsed Hrec _ IH]; [constructor|].
    constructor; [|done]. by apply parse_entry_ok in Hrec as [? _].
Qed.

(** X6. Entries whose date keys denote the same day (the provider may
    spell one day in two ways) all stay in the list, next to each other
    and in the order of the payload: the fetcher does not merge them. *)
Theorem fetch_same_day_in_payload_order (sym : string)
    (ts : list (string * pyval)) (w : world) (records : list price_record) :
  serves E sym ts →
  (fetch_history_for_symbol E sym w).1 = Ok records →
  ∃ parsed,
    Forall2 (λ item rec, parse_entry sym item = Ok rec) ts parsed ∧
    ∀ d, filter (λ rec, as_of_date rec = d) records
         = filter (λ rec, as_of_date rec = d) parsed.
Proof.
  intros Hserved. rewrite (fetch_served _ _ _ Hserved).
  destruct (collect (parse_entry sym) ts) as [parsed|] eqn:Hparsed; [|done].
  intros [= <-]. apply collect_ok_inv in Hparsed.
  exists parsed. split; [done|]. intros d. apply sort_by_date_stable.
Qed.

(** X8. Whatever the environment and the response, the fetcher leaves the
    warehouse alone and never sleeps: no connector call, no change of the
    tables. It sends at most one request. When it has printed anything it
    has either returned the empty list, or ended with the exception the
    stream raised for the line that came next: a call that returns
    records prints nothing. *)
Theorem fetch_touches_nothing_else (sym : string) (w : world) :
  db_calls (fetch_history_for_symbol E sym w).2 = db_calls w ∧
  db (fetch_history_for_symbol E sym w).2 = db w ∧
  slept (fetch_history_for_symbol E sym w).2 = slept w ∧
  (requests (fetch_history_for_symbol E sym w).2 = requests w ∨
   ∃ api_key, requests (fetch_history_for_symbol E sym w).2
              = requests w ++ [query_url sym api_key]) ∧
  ∃ lines,
    stdout (fetch_history_for_symbol E sym w).2 = stdout w ++ lines ∧
    (lines ≠ [] →
     (fetch_history_for_symbol E sym w).1 = Ok [] ∨
     ∃ line e,
       stdout_fault E (length (stdout w) + length lines) line = Some e ∧
       (fetch_history_for_symbol E sym w).1 = Raise e).
Proof.
  destruct (environ E !! "ALPHAVANTAGE_API_KEY") as [api_key|] eqn:Hkey.
  - destruct (requests_get E (query_url sym api_key) 20) as [resp|e] eqn:Hresp.
    + rewrite (fetch_on_response _ _ _ _ _ Hkey Hresp). cbn [fst snd].
      cbn [stdout requests db_calls slept db].
      repeat (split; [done|]). split; [right; by exists api_key|].
      eexists. split; [done|]. intros Hne.
      destruct (printed _ _ _).2 as [e|] eqn:Hr.
      * right. apply printed_raise in Hr as (line & _ & Hfault).
        by exists line, e.
      * left. destruct (on_response_lines sym resp) as [Hnil|Hret]; [|done].
        rewrite Hnil in Hne. done.
    + rewrite (fetch_request_failure _ _ _ _ Hkey Hresp). simpl.
      repeat (split; [done|]). split; [right; by exists api_key|].
      exists []. by rewrite app_nil_r.
  - rewrite fetch_no_key by done. simpl.
    repeat (split; [done|]). split; [by left|].
    exists []. by rewrite app_nil_r.
Qed.

End FetcherMore.

Lemma NoDup_fmap_inj_on {A B} (f : A → B) (xs : list A) (x y : A) :
  NoDup (f <$> xs) → x ∈ xs → y ∈ xs → f x = f y → x = y.
Proof.
  induction xs as [|z zs IH]; intros Hnd Hx Hy Heq; [by inv Hx|].
  simpl in Hnd. apply NoDup_cons in Hnd as [Hz Hzs].
  apply elem_of_cons in Hx as [->|Hx], Hy as [->|Hy]; [done| | |by apply IH].
  - destruct Hz. rewrite Heq. apply list_elem_of_fmap. by exists y.
  - destruct Hz. rewrite <- Heq. apply list_elem_of_fmap. by exists x.
Qed.

Lemma date_ltb_asym (a b : date) : date_ltb a b = true → date_ltb b a = false.
Proof.
  intros Hab. destruct (date_ltb b a) eqn:Hba; [|done].
  apply date_ltb_lex in Hab, Hba. lia.
Qed.

Lemma sort_by_date_strongly_sorted (records : list price_record) :
  StronglySorted (key_le date_ltb as_of_date) (sort_by date_ltb as_of_date records).
Proof.
  apply Sorted_StronglySorted.
  - intros x y z. unfold key_le. apply date_le_trans.
  - apply sort_by_Sorted, date_ltb_asym.
Qed.

Section FetcherOrder.
Context {lib : PyLib}.

(** X7. The order of the entries in the payload does not matter: two
    served series that are rearrangements of each other give the same
    list, provided the list holds no day twice. *)
Theorem fetch_order_independent (E1 E2 : environment) (sym : string)
    (ts1 ts2 : list (string * pyval)) (w1 w2 : world)
    (records : list price_record) :
  serves E1 sym ts1 → serves E2 sym ts2 →
  ts1 ≡ₚ ts2 →
  (fetch_history_for_symbol E1 sym w1).1 = Ok records →
  NoDup (as_of_date <$> records) →
  (fetch_history_for_symbol E2 sym w2).1 = Ok records.
Proof.
  intros Hs1 Hs2 Hperm.
  rewrite (fetch_served _ _ _ _ Hs1), (fetch_served _ _ _ _ Hs2).
  destruct (collect (parse_entry sym) ts1) as [parsed1|] eqn:Hp1; [|done].
  destruct (collect_Permutation _ _ _ Hperm _ Hp1) as (parsed2 & -> & Hparsed).
  intros [= <-] Hnodup. f_equal. symmetry.
  assert (sort_by date_ltb as_of_date parsed1
            ≡ₚ sort_by date_ltb as_of_date parsed2) as Hsorted
    by (by rewrite !sort_by_perm).
  apply (StronglySorted_unique_strong (key_le date_ltb as_of_date)).
  - intros x y Hx Hy Hxy Hyx. rewrite <- Hsorted in Hy.
    assert (as_of_date x = as_of_date y) as Hdate
      by (apply date_le_antisym; [exact Hxy|exact Hyx]).
    by eapply NoDup_fmap_inj_on.
  - apply sort_by_date_strongly_sorted.
  - apply sort_by_date_strongly_sorted.
  - exact Hsorted.
Qed.

End FetcherOrder.


Section FetcherMoreRuns.
Import Scenario.

Lemma fetch_missing_api_key_witness :
  environ unset !! "ALPHAVANTAGE_API_KEY" = None ∧
  fetch_history_for_symbol unset "ABC" fresh
  = (Raise (KeyError "ALPHAVANTAGE_API_KEY"), fresh).
Proof.
  split; [reflexivity|].
  exact (fetch_missing_api_key unset "ABC" fresh eq_refl).
Defined.

Lemma fetch_request_failure_witness :
  environ unreachable !! "ALPHAVANTAGE_API_KEY" = Some "demo" ∧
  requests_get unreachable (query_url "ABC" "demo") 20 = Raise RequestException ∧
  fetch_history_for_symbol unreachable "ABC" fresh
  = (Raise RequestException, World [] [query_url "ABC" "demo"] [] 0 (Store ∅ ∅)).
Proof.
  assert (environ unreachable !! "ALPHAVANTAGE_API_KEY" = Some "demo") as Hkey
    by (vm_compute; reflexivity).
  split; [exact Hkey|]. split; [reflexivity|].
  exact (fetch_request_failure unreachable "ABC" "demo" RequestException fresh
           Hkey eq_refl).
Defined.

Lemma fetch_http_error_witness :
  environ (env_with forbidden no_fault) !! "ALPHAVANTAGE_API_KEY" = Some "demo" ∧
  requests_get (env_with forbidden no_fault) (query_url "ABC" "demo") 20
    = Ok forbidden ∧
  status_code forbidden ≠ 429 ∧ 400 ≤ status_code forbidden < 600 ∧
  fetch_history_for_symbol (env_with forbidden no_fault) "ABC" fresh
  = (Ok [], World [WarnHttp "ABC" 403] [query_url "ABC" "demo"] [] 0 (Store ∅ ∅)).
Proof.
  assert (environ (env_with forbidden no_fault) !! "ALPHAVANTAGE_API_KEY"
          = Some "demo") as Hkey by (vm_compute; reflexivity).
  assert (status_code forbidden ≠ 429) as H429 by (simpl; lia).
  assert (400 ≤ status_code forbidden < 600) as Hrange by (simpl; lia).
  split; [exact Hkey|]. split; [reflexivity|].
  split; [exact H429|]. split; [exact Hrange|].
  exact (fetch_http_error (env_with forbidden no_fault) "ABC" "demo" forbidden
           fresh Hkey eq_refl H429 Hrange).
Defined.

Lemma fetch_missing_series_key_witness :
  environ (env_with rate_note no_fault) !! "ALPHAVANTAGE_API_KEY" = Some "demo" ∧
  requests_get (env_with rate_note no_fault) (query_url "ABC" "demo") 20
    = Ok rate_note ∧
  status_code rate_note ≠ 429 ∧ ok rate_note = true ∧
  fetch_history_for_symbol (env_with rate_note no_fault) "ABC" fresh
  = (Ok [],
     World [WarnUnexpected "ABC" ["Note"];
            WarnMessage (PStr "Thank you for using Alpha Vantage!")]
       [query_url "ABC" "demo"] [] 0 (Store ∅ ∅)).
Proof.
  assert (environ (env_with rate_note no_fault) !! "ALPHAVANTAGE_API_KEY"
          = Some "demo") as Hkey by (vm_compute; reflexivity).
  assert (status_code rate_note ≠ 429) as H429 by (simpl; lia).
  split; [exact Hkey|]. split; [reflexivity|].
  split; [exact H429|]. split; [reflexivity|].
  exact (fetch_missing_series_key (env_with rate_note no_fault) "ABC" "demo"
           rate_note _ fresh Hkey eq_refl H429 eq_refl eq_refl eq_refl).
Defined.

(** The second line refused: the keys were printed, the message was not. *)
Example fetch_message_refused :
  fetch_history_for_symbol (env_printing_to utf8 surrogate_note) "ABC" fresh
  = (Raise UnicodeEncodeError,
     World [WarnUnexpected "ABC" ["Information"]] [query_url "ABC" "demo"]
       [] 0 (Store ∅ ∅)).
Proof. vm_compute; reflexivity. Qed.

(** The one warning refused: nothing was printed. *)
Example fetch_http_error_refused :
  fetch_history_for_symbol (env_printing_to one_byte forbidden) "ABC" fresh
  = (Raise UnicodeEncodeError,
     World [] [query_url "ABC" "demo"] [] 0 (Store ∅ ∅)).
Proof. vm_compute; reflexivity. Qed.

Lemma env_with_serves (entries : list (string * pyval)) fault :
  serves (env_with (Response 200 (Ok (daily entries))) fault) "ABC" entries.
Proof.
  exists "demo", (Response 200 (Ok (daily entries))).
  eexists. split; [by vm_compute|]. split; [done|]. split; [simpl; lia|].
  split; [done|]. split; reflexivity.
Qed.

Lemma fetch_one_record_per_entry_witness :
  serves (env_with (Response 200 (Ok (daily newest_first))) no_fault) "ABC"
    newest_first ∧
  (fetch_history_for_symbol
     (env_with (Response 200 (Ok (daily newest_first))) no_fault) "ABC" fresh).1
    = Ok oldest_first ∧
  ∃ parsed,
    Forall2 (λ item rec, parse_entry "ABC" item = Ok rec) newest_first parsed ∧
    oldest_first ≡ₚ parsed ∧
    length oldest_first = length newest_first ∧
    Forall (λ rec, symbol rec = "ABC") oldest_first.
Proof.
  assert ((fetch_history_for_symbol
             (env_with (Response 200 (Ok (daily newest_first))) no_fault)
             "ABC" fresh).1 = Ok oldest_first) as Hrun by (vm_compute; reflexivity).
  split; [apply env_with_serves|]. split; [exact Hrun|].
  exact (fetch_one_record_per_entry _ "ABC" newest_first fresh oldest_first
           (env_with_serves _ _) Hrun).
Defined.

Lemma fetch_same_day_in_payload_order_witness :
  serves (env_with (Response 200 (Ok (daily two_spellings))) no_fault) "ABC"
    two_spellings ∧
  (fetch_history_for_symbol
     (env_with (Response 200 (Ok (daily two_spellings))) no_fault) "ABC" fresh).1
    = Ok [abc_record; abc_stale;
          PriceRecord (Date 2024 1 3) "ABC" 11 13 10 12.5 800] ∧
  ∃ parsed,
    Forall2 (λ item rec, parse_entry "ABC" item = Ok rec) two_spellings parsed ∧
    ∀ d, filter (λ rec, as_of_date rec = d)
           [abc_record; abc_stale;
            PriceRecord (Date 2024 1 3) "ABC" 11 13 10 12.5 800]
         = filter (λ rec, as_of_date rec = d) parsed.
Proof.
  assert ((fetch_history_for_symbol
             (env_with (Response 200 (Ok (daily two_spellings))) no_fault)
             "ABC" fresh).1
          = Ok [abc_record; abc_stale;
                PriceRecord (Date 2024 1 3) "ABC" 11 13 10 12.5 800]) as Hrun
    by (vm_compute; reflexivity).
  split; [apply env_with_serves|]. split; [exact Hrun|].
  exact (fetch_same_day_in_payload_order _ "ABC" two_spellings fresh _
           (env_with_serves _ _) Hrun).
Defined.

Lemma fetch_order_independent_witness :
  serves (env_with (Response 200 (Ok (daily newest_first))) no_fault) "ABC"
    newest_first ∧
  serves (env_with (Response 200 (Ok (daily oldest_first_entries))) no_fault) "ABC"
    oldest_first_entries ∧
  newest_first ≡ₚ oldest_first_entries ∧
  NoDup (as_of_date <$> oldest_first) ∧
  (fetch_history_for_symbol
     (env_with (Response 200 (Ok (daily oldest_first_entries))) no_fault)
     "ABC" fresh).1 = Ok oldest_first.
Proof.
  assert ((fetch_history_for_symbol
             (env_with (Response 200 (Ok (daily newest_first))) no_fault)
             "ABC" fresh).1 = Ok oldest_first) as Hrun by (vm_compute; reflexivity).
  assert (newest_first ≡ₚ oldest_first_entries) as Hperm.
  { change oldest_first_entries with (reverse newest_first).
    symmetry. apply reverse_Permutation. }
  assert (NoDup (as_of_date <$> oldest_first)) as Hnodup.
  { apply (bool_decide_unpack (NoDup (as_of_date <$> oldest_first))).
    vm_compute. exact I. }
  split; [apply env_with_serves|]. split; [apply env_with_serves|].
  split; [exact Hperm|]. split; [exact Hnodup|].
  exact (fetch_order_independent _ _ "ABC" newest_first oldest_first_entries
           fresh fresh oldest_first (env_with_serves _ _) (env_with_serves _ _)
           Hperm Hrun Hnodup).
Defined.

End FetcherMoreRuns.

(** * Further properties of the writer *)

Section WriterMore.
Context (E : environment).
Implicit Types (w : world) (records : list price_record).

(** X9. With a non-empty list, a required variable that is not set ends
    the call with [KeyError] for the first such variable in reading order,
    before any connector call: no connection is opened and the world is
    unchanged. *)
Theorem upsert_missing_variable records w (pre post : list string)
    (name : string) :
  records ≠ [] →
  required_vars = pre ++ name :: post →
  Forall (λ x, is_Some (environ E !! x)) pre →
  environ E !! name = None →
  insert_history_into_snowflake E records w = (Raise (KeyError name), w).
Proof.
  intros Hne Hvars Hpre Hname.
  assert (is_nil records = false) as Hnil by by destruct records.
  unfold insert_history_into_snowflake. rewrite Hnil.
  unfold required_vars in Hvars.
  repeat (destruct pre as [|? pre];
          [injection Hvars as <- _; unfold getenv at 1; rewrite Hname; done|];
          apply Forall_cons in Hpre as [? Hpre];
          injection Hvars as <- Hvars;
          rewrite getenv_configured, bind_ret by done).
  by destruct pre.
Qed.

(** X10. When [snowflake.connector.connect] raises, that exception is the
    outcome: the one connector call is the failed connect, no cursor is
    asked for, nothing is closed, and the tables are untouched. *)
Theorem upsert_connect_failure records w (e : exn) :
  records ≠ [] → configured E →
  db_fault E (length (db_calls w)) = Some e →
  insert_history_into_snowflake E records w =
    (Raise e,
     World (stdout w) (requests w) (db_calls w ++ [Connect (connect_args_of E)])
       (slept w) (db w)).
Proof.
  intros Hne Hcfg Hconn.
  assert (is_nil records = false) as Hnil by by destruct records.
  unfold insert_history_into_snowflake. rewrite Hnil.
  unfold configured in Hcfg.
  repeat match goal with
         | H : Forall _ (_ :: _) |- _ => apply Forall_cons in H as [? H]
         end.
  do 6 (rewrite getenv_configured, bind_ret by done).
  change (ConnectArgs _ _ _ _ _ _ _) with (connect_args_of E).
  unfold connect, bind at 1, bind at 1, db_do at 1. by rewrite Hconn.
Qed.

Lemma fmap_filter_other (k : key) (rows : list stored_row) :
  row_values <$> filter (λ r, row_key r ≠ k) rows
  = filter (λ r, key_of r ≠ k) (row_values <$> rows).
Proof.
  induction rows as [|r rows IH]; [done|].
  rewrite fmap_cons, !filter_cons. unfold row_key at 1.
  destruct (decide (key_of (row_values r) ≠ k)); by rewrite ?fmap_cons, IH.
Qed.

Lemma values_upsert_rows clock n records (rows : list stored_row) :
  row_values <$> upsert_rows clock n records rows
  = upsert_values records (row_values <$> rows).
Proof.
  unfold upsert_values. revert n rows.
  induction records as [|rec records IH]; intros n rows; [done|]. simpl.
  rewrite IH. unfold upsert_row. rewrite fmap_app. simpl.
  by rewrite fmap_filter_other.
Qed.

Lemma values_after_run records w :
  fault_free E → configured E →
  row_values <$> stock_prices E (insert_history_into_snowflake E records w).2
  = upsert_values records (row_values <$> stock_prices E w).
Proof.
  intros Hff Hcfg. destruct (decide (records = [])) as [->|Hne]; [done|].
  rewrite stock_prices_after_run by done. apply values_upsert_rows.
Qed.

Lemma last_per_key_keys records :
  Forall (λ r, key_of r ∈ key_of <$> records) (last_per_key records).
Proof.
  induction records as [|rec records IH]; simpl; [constructor|].
  assert (Forall (λ r, key_of r ∈ key_of rec :: (key_of <$> records))
            (last_per_key records)) as IH'.
  { eapply Forall_impl; [exact IH|]. intros r Hr. by right. }
  destruct (decide _); [done|]. constructor; [by left|done].
Qed.

Lemma upsert_values_closed records (vals : list price_record) :
  upsert_values records vals
  = filter (λ r, key_of r ∉ key_of <$> records) vals ++ last_per_key records.
Proof.
  unfold upsert_values. revert vals.
  induction records as [|rec records IH]; intros vals; simpl.
  - rewrite app_nil_r. symmetry. induction vals as [|v vals IHv]; [done|].
    rewrite filter_cons_True by apply not_elem_of_nil. by rewrite IHv.
  - rewrite IH, filter_app, list_filter_filter, <- app_assoc. f_equal.
    + apply list_filter_iff. intros r. rewrite not_elem_of_cons. tauto.
    + rewrite filter_cons, filter_nil.
      destruct (decide (key_of rec ∈ key_of <$> records));
        destruct (decide (key_of rec ∉ key_of <$> records)); done.
Qed.

(** X11. The table after a run, from any table: the rows whose key the
    list does not mention, untouched and in their order, followed by one
    row per key of the list, holding the key's last record, in the order of
    those last occurrences. *)
Theorem upsert_table_after_run records w :
  fault_free E → configured E →
  row_values <$> stock_prices E (insert_history_into_snowflake E records w).2
  = filter (λ r, key_of r ∉ key_of <$> records) (row_values <$> stock_prices E w)
    ++ last_per_key records.
Proof.
  intros Hff Hcfg. rewrite values_after_run by done. apply upsert_values_closed.
Qed.

(** X12. Idempotence of the write: a second run with the same list leaves
    the inserted columns of every row, and the order of the rows, as the
    first run left them (only FETCHED_AT moves). *)
Theorem upsert_twice_same_table records w :
  fault_free E → configured E →
  row_values <$> stock_prices E
    (insert_history_into_snowflake E records
       (insert_history_into_snowflake E records w).2).2
  = row_values <$> stock_prices E (insert_history_into_snowflake E records w).2.
Proof.
  intros Hff Hcfg. rewrite !values_after_run by done.
  rewrite !upsert_values_closed, filter_app, list_filter_filter_l by tauto.
  rewrite (filter_none _ (last_per_key records)); [by rewrite app_nil_r|].
  eapply Forall_impl; [apply last_per_key_keys|]. intros r Hr Hnot. by apply Hnot.
Qed.

(** X13. Batches compose: writing [records1] and then [records2] in two
    runs leaves the same inserted columns, in the same row order, as
    writing [records1 ++ records2] in one run. *)
Theorem upsert_batches_compose records1 records2 w :
  fault_free E → configured E →
  row_values <$> stock_prices E
    (insert_history_into_snowflake E records2
       (insert_history_into_snowflake E records1 w).2).2
  = row_values <$> stock_prices E
      (insert_history_into_snowflake E (records1 ++ records2) w).2.
Proof.
  intros Hff Hcfg. rewrite !values_after_run by done.
  unfold upsert_values. by rewrite fold_left_app.
Qed.

End WriterMore.

(** ** What every run of the writer leaves alone *)

Section Keeps.
Context (E : environment) (J : world → Prop).

Lemma keeps_ret {A} (a : A) : preserves J (ret a).
Proof. by intros w. Qed.

Lemma keeps_raise {A} (e : exn) : preserves J (@raise A e).
Proof. by intros w. Qed.

Lemma keeps_bind {A B} (m : M A) (k : A → M B) :
  preserves J m → (∀ a, preserves J (k a)) → preserves J (bind m k).
Proof.
  intros Hm Hk w Hw. unfold bind. specialize (Hm w Hw).
  destruct (m w) as [[a|e] w']; simpl in *; [by apply Hk|done].
Qed.

Lemma keeps_getenv name : preserves J (getenv E name).
Proof.
  unfold getenv. destruct (environ E !! name); [apply keeps_ret|apply keeps_raise].
Qed.

Lemma keeps_local {L} name (x : option L) : preserves J (local name x).
Proof. destruct x; [apply keeps_ret|apply keeps_raise]. Qed.

Lemma keeps_for_each {A} (xs : list A) (f : A → M unit) :
  (∀ x, x ∈ xs → preserves J (f x)) → preserves J (for_each xs f).
Proof.
  induction xs as [|x xs IH]; intros Hf; simpl; [apply keeps_ret|].
  apply keeps_bind; [apply Hf; by left|]. intros _. apply IH.
  intros y Hy. apply Hf. by right.
Qed.

Lemma keeps_try_finally {L A} (acquire : M L) (body : L → M A)
    (fin : option L → M unit) :
  preserves J acquire → (∀ cs, preserves J (body cs)) →
  (∀ cs, preserves J (fin cs)) →
  preserves J (try_finally acquire body fin).
Proof.
  intros Ha Hb Hf w Hw. unfold try_finally. specialize (Ha w Hw).
  destruct (acquire w) as [[cs|e] w0]; simpl in *.
  - specialize (Hb cs w0 Ha). destruct (body cs w0) as [r w1]; simpl in *.
    specialize (Hf (Some cs) w1 Hb).
    by destruct (fin (Some cs) w1) as [[?|?] w2].
  - specialize (Hf None w0 Ha).
    by destruct (fin None w0) as [[?|?] w2].
Qed.

(** The writer keeps whatever its connector calls keep, provided the
    statements of the loop do for the records of the list. *)
Lemma keeps_upsert (records : list price_record) :
  (∀ call, (∀ s, call ≠ Execute s) → preserves J (db_do E call)) →
  (∀ name, preserves J (db_do E (Execute (CreateSchemaIfNotExists name)))) →
  (∀ t, preserves J (db_do E (Execute (CreateTableIfNotExists t)))) →
  (∀ t rec, rec ∈ records →
     preserves J (db_do E (Execute (DeleteFrom t (as_of_date rec) (symbol rec))))) →
  (∀ t rec, rec ∈ records → preserves J (db_do E (Execute (InsertInto t rec)))) →
  preserves J (insert_history_into_snowflake E records).
Proof.
  intros Hother Hcs Hct Hdel Hins.
  unfold insert_history_into_snowflake.
  destruct (is_nil records); [apply keeps_ret|].
  repeat (apply keeps_bind; [apply keeps_getenv|intros ?]).
  apply keeps_bind.
  { unfold connect. apply keeps_bind; [by apply Hother|intros _]. apply keeps_ret. }
  intros ctx. apply keeps_try_finally.
  - unfold new_cursor. apply keeps_bind; [by apply Hother|intros _]. apply keeps_ret.
  - intros cs. unfold execute, commit.
    apply keeps_bind; [apply Hcs|intros _].
    apply keeps_bind; [apply Hct|intros _].
    apply keeps_bind; [|intros _; by apply Hother].
    apply keeps_for_each. intros rec Hrec.
    apply keeps_bind; [by apply Hdel|intros _; by apply Hins].
  - intros cs. unfold cursor_close, connection_close.
    apply keeps_bind; [apply keeps_local|intros c].
    apply keeps_bind; [by apply Hother|intros _]. by apply Hother.
Qed.

End Keeps.

Section WriterFrame.
Context (E : environment).

Lemma table_rows_set_table t fq rows st :
  table_rows t (set_table fq rows st)
  = if decide (fq = t) then rows else table_rows t st.
Proof.
  unfold table_rows, set_table. simpl. rewrite lookup_insert.
  by destruct (decide (fq = t)).
Qed.

Lemma exec_stmt_same_outside (K : list key) now enforce s st0 st st' :
  stmt_within K s → same_outside K st0 st →
  exec_stmt now enforce s st = Ok st' → same_outside K st0 st'.
Proof.
  intros Hs Hst Hexec t. rewrite <- (Hst t). clear Hst.
  destruct s as [name|fq|fq d sym|fq rec]; simpl in *.
  - by injection Hexec as <-.
  - destruct (tables st !! fq) eqn:Hfq; injection Hexec as <-; [done|].
    rewrite table_rows_set_table. destruct (decide (fq = t)) as [<-|]; [|done].
    unfold table_rows. by rewrite Hfq.
  - destruct (tables st !! fq) as [rows|] eqn:Hfq; [|done].
    injection Hexec as <-. rewrite table_rows_set_table.
    destruct (decide (fq = t)) as [<-|]; [|done].
    unfold table_rows. rewrite Hfq. simpl. rewrite list_filter_filter.
    apply list_filter_iff. intros r. split; [tauto|].
    intros Hr. split; [done|]. intros Heq. apply Hr. by rewrite Heq.
  - destruct (tables st !! fq) as [rows|] eqn:Hfq; [|done].
    destruct (_ && _); [done|]. injection Hexec as <-.
    rewrite table_rows_set_table. destruct (decide (fq = t)) as [<-|]; [|done].
    unfold table_rows. rewrite Hfq. simpl. rewrite filter_app.
    rewrite filter_cons_False, filter_nil, app_nil_r; [done|].
    intros Hout. by apply Hout.
Qed.

Lemma db_do_same_outside (K : list key) call st0 :
  (∀ s, call = Execute s → stmt_within K s) →
  preserves (on_db (same_outside K st0)) (db_do E call).
Proof.
  intros Hs w Hw. unfold on_db.
  destruct (db_do_cases E call w) as [->|(s & st & -> & _ & Hst & ->)]; [done|].
  eapply exec_stmt_same_outside; [by apply Hs|exact Hw|exact Hst].
Qed.

(** X14. However a run ends, a row whose key is not a key of the list is
    left as it was, in every table and in its place among such rows: the
    writer deletes and inserts under the keys of its batch only. *)
Theorem upsert_leaves_other_keys (records : list price_record) (w : world)
    (t : string) :
  filter (λ r, row_key r ∉ key_of <$> records)
    (table_rows t (db (insert_history_into_snowflake E records w).2))
  = filter (λ r, row_key r ∉ key_of <$> records) (table_rows t (db w)).
Proof.
  assert (preserves (on_db (same_outside (key_of <$> records) (db w)))
            (insert_history_into_snowflake E records)) as Hkeeps.
  { apply keeps_upsert.
    - intros call Hcall. apply db_do_same_outside. intros s ->. by destruct (Hcall s).
    - intros name. apply db_do_same_outside. by intros s [= <-].
    - intros fq. apply db_do_same_outside. by intros s [= <-].
    - intros fq rec Hrec. apply db_do_same_outside. intros s [= <-]. simpl.
      apply list_elem_of_fmap. by exists rec.
    - intros fq rec Hrec. apply db_do_same_outside. intros s [= <-]. simpl.
      apply list_elem_of_fmap. by exists rec. }
  apply (Hkeeps w). by intros t'.
Qed.

Lemma db_do_warehouse_only call w0 :
  preserves (warehouse_only w0) (db_do E call).
Proof.
  intros w (Hout & Hreq & Hsl & calls & Hcalls).
  unfold warehouse_only. rewrite db_do_calls, Hcalls, <- app_assoc.
  assert (stdout (db_do E call w).2 = stdout w ∧
          requests (db_do E call w).2 = requests w ∧
          slept (db_do E call w).2 = slept w) as (-> & -> & ->).
  { unfold db_do. destruct (db_fault E _); [done|].
    destruct call; try done. by destruct (exec_stmt _ _ _ _). }
  repeat split; try done. by eexists.
Qed.

(** X15. However a run ends, the writer has printed nothing, sent no HTTP
    request and not slept; its connector calls are added after those
    already made. *)
Theorem upsert_touches_only_the_warehouse (records : list price_record)
    (w : world) :
  stdout (insert_history_into_snowflake E records w).2 = stdout w ∧
  requests (insert_history_into_snowflake E records w).2 = requests w ∧
  slept (insert_history_into_snowflake E records w).2 = slept w ∧
  ∃ calls,
    db_calls (insert_history_into_snowflake E records w).2 = db_calls w ++ calls.
Proof.
  assert (preserves (warehouse_only w) (insert_history_into_snowflake E records))
    as Hkeeps.
  { apply keeps_upsert; intros; apply db_do_warehouse_only. }
  apply (Hkeeps w). repeat split; try done. exists []. by rewrite app_nil_r.
Qed.

End WriterFrame.


(** ** Runs of the writer, call by call *)

Section WriterCalls.
Context (E : environment).
Implicit Types (w : world) (records : list price_record).

Lemma first_fault_add fault n a b :
  first_fault fault n (a + b) =
    match first_fault fault n a with
    | Some stop => Some stop
    | None => (λ '(i, e), (a + i, e)%nat) <$> first_fault fault (n + a) b
    end.
Proof.
  revert n. induction a as [|a IH]; intros n; simpl.
  - rewrite Nat.add_0_r. by destruct (first_fault fault n b) as [[i e]|].
  - destruct (fault n); [done|]. rewrite IH.
    destruct (first_fault fault (S n) a) as [[i e]|]; [done|].
    rewrite <- Nat.add_succ_comm.
    by destruct (first_fault fault (S n + a) b) as [[i e]|].
Qed.

Lemma first_fault_bound fault n len i e :
  first_fault fault n len = Some (i, e) → (i < len)%nat.
Proof.
  revert n i e. induction len as [|len IH]; intros n i e; simpl; [done|].
  destruct (fault n); [intros [= <- _]; lia|].
  destruct (first_fault fault (S n) len) as [[j e']|] eqn:Hrest; [|done].
  intros [= <- _]. apply IH in Hrest. lia.
Qed.

Lemma stops_bind Pre Mid Post (m1 m2 : M unit) (calls1 calls2 : list db_call) :
  stops_at_first_fault E Pre m1 calls1 Mid →
  stops_at_first_fault E Mid m2 calls2 Post →
  stops_at_first_fault E Pre (m1 ;; m2) (calls1 ++ calls2) Post.
Proof.
  intros H1 H2 w Hpre. specialize (H1 w Hpre).
  rewrite length_app, first_fault_add. unfold bind.
  destruct (first_fault (db_fault E) (length (db_calls w)) (length calls1))
    as [[i e]|] eqn:Hstop1.
  - destruct H1 as [Hr Hcalls]. apply first_fault_bound in Hstop1.
    destruct (m1 w) as [r w1]; simpl in *. subst r.
    split; [done|]. by rewrite take_app_le by lia.
  - destruct H1 as (Hr & Hcalls & Hmid).
    destruct (m1 w) as [r w1]; simpl in *. subst r.
    specialize (H2 w1 Hmid). rewrite Hcalls, length_app in H2.
    destruct (first_fault (db_fault E) (length (db_calls w) + length calls1)
                (length calls2)) as [[i e]|]; simpl.
    + destruct H2 as [Hr Hcalls2]. split; [done|].
      rewrite Hcalls2, <- app_assoc. f_equal.
      by rewrite <- Nat.add_succ_r, take_app_add.
    + destruct H2 as (Hr & Hcalls2 & Hpost). split; [done|].
      split; [|done]. by rewrite Hcalls2, <- app_assoc.
Qed.

Lemma stops_ret Pre : stops_at_first_fault E Pre (ret tt) [] Pre.
Proof. intros w Hpre. simpl. by rewrite app_nil_r. Qed.

(** A statement the store accepts fails only when the warehouse fails the
    call. *)
Lemma stops_execute (Pre Post : store → Prop) cs s :
  (∀ now st, Pre st →
     ∃ st', exec_stmt now (pk_enforced E) s st = Ok st' ∧ Post st') →
  stops_at_first_fault E Pre (execute E cs s) [Execute s] Post.
Proof.
  intros Hexec w Hpre. unfold execute, db_do. simpl.
  destruct (db_fault E (length (db_calls w))); simpl; [done|].
  destruct (Hexec (db_clock E (length (db_calls w))) (db w) Hpre)
    as (st' & -> & Hpost).
  done.
Qed.

Lemma stops_commit Pre ctx :
  stops_at_first_fault E Pre (commit E ctx) [Commit] Pre.
Proof.
  intros w Hpre. unfold commit, db_do. simpl.
  by destruct (db_fault E (length (db_calls w))).
Qed.

(** One turn of the loop: the delete finds the table, and the insert finds
    no row under its key. *)
Lemma stops_turn cs fq rec :
  stops_at_first_fault E (has_table fq)
    (execute E cs (DeleteFrom fq (as_of_date rec) (symbol rec)) ;;
     execute E cs (InsertInto fq rec))
    [Execute (DeleteFrom fq (as_of_date rec) (symbol rec));
     Execute (InsertInto fq rec)]
    (has_table fq).
Proof.
  apply (stops_bind _ (has_table_without fq (key_of rec)) _ _ _ [_] [_]).
  - apply stops_execute. intros now st [rows Hrows]. simpl. rewrite Hrows.
    eexists. split; [done|]. eexists. simpl. rewrite lookup_insert_eq.
    split; [done|]. intros (r & Hkey & Hr)%list_elem_of_fmap.
    apply list_elem_of_filter in Hr as [Hne _]. by destruct Hne.
  - apply stops_execute. intros now st (rows & Hrows & Hfree). simpl.
    rewrite Hrows, (bool_decide_eq_false_2 _ Hfree), andb_false_r.
    eexists. split; [done|]. unfold has_table. simpl.
    by rewrite lookup_insert_eq.
Qed.

Lemma stops_loop cs fq records :
  stops_at_first_fault E (has_table fq)
    (for_each records (λ rec,
       execute E cs (DeleteFrom fq (as_of_date rec) (symbol rec)) ;;
       execute E cs (InsertInto fq rec)))
    (loop_calls fq records)
    (has_table fq).
Proof.
  induction records as [|rec records IH]; simpl; [apply stops_ret|].
  apply (stops_bind _ (has_table fq) _ _ _ [_; _]); [apply stops_turn|exact IH].
Qed.

(** The [try] block, once the cursor exists. *)
Lemma stops_try_block cs ctx records :
  stops_at_first_fault E (λ _, True)
    (execute E cs (CreateSchemaIfNotExists (schema_of E)) ;;
     execute E cs (CreateTableIfNotExists (fq_table_of E)) ;;
     for_each records (λ rec,
       execute E cs (DeleteFrom (fq_table_of E) (as_of_date rec) (symbol rec)) ;;
       execute E cs (InsertInto (fq_table_of E) rec)) ;;
     commit E ctx)
    (try_calls E records)
    (has_table (fq_table_of E)).
Proof.
  unfold try_calls.
  apply (stops_bind _ (λ _, True) _ _ _ [_]).
  { apply stops_execute. intros now st _. simpl. by eexists. }
  apply (stops_bind _ (has_table (fq_table_of E)) _ _ _ [_]).
  { apply stops_execute. intros now st _. simpl. unfold has_table.
    destruct (tables st !! fq_table_of E) eqn:Htable.
    - eexists. split; [done|]. by rewrite Htable.
    - eexists. split; [done|]. simpl. by rewrite lookup_insert_eq. }
  apply stops_bind with (Mid := has_table (fq_table_of E));
    [apply stops_loop|apply stops_commit].
Qed.

(** X16. Once the connection and the cursor exist, the run sends the
    statements of the [try] block in order and stops at the first call the
    warehouse fails, the commit being the last of them. Whether the block
    was left by that exception or by its end, the cursor is then closed,
    and the connection is closed too unless closing the cursor raised. The
    outcome is the exception of a close that raised, else that of the
    block: the exception of the call that failed, or a normal return when
    none did. *)
Theorem upsert_releases_what_it_opened records w :
  records ≠ [] → configured E →
  let n := length (db_calls w) in
  db_fault E n = None →
  db_fault E (S n) = None →
  let body := try_calls E records in
  let stop := first_fault (db_fault E) (n + 2) (length body) in
  let k := match stop with Some (i, _) => S i | None => length body end in
  db_calls (insert_history_into_snowflake E records w).2
  = db_calls w ++ [Connect (connect_args_of E); Cursor]
    ++ take k body
    ++ CursorClose ::
       match db_fault E (n + 2 + k) with
       | Some _ => []
       | None => [ConnectionClose]
       end ∧
  (insert_history_into_snowflake E records w).1
  = match db_fault E (n + 2 + k), db_fault E (n + 3 + k) with
    | Some e, _ => Raise e
    | None, Some e => Raise e
    | None, None =>
      match stop with
      | Some (_, e) => Raise e
      | None => Ok tt
      end
    end.
Proof.
  intros Hne Hcfg n Hconn Hcur body stop k.
  assert (is_nil records = false) as Hnil by by destruct records.
  remember (insert_history_into_snowflake E records w) as out eqn:Hout.
  unfold insert_history_into_snowflake in Hout. rewrite Hnil in Hout.
  unfold configured in Hcfg.
  repeat match goal with
         | H : Forall _ (_ :: _) |- _ => apply Forall_cons in H as [? H]
         end.
  do 6 (rewrite getenv_configured, bind_ret in Hout by done).
  change (ConnectArgs _ _ _ _ _ _ _) with (connect_args_of E) in Hout.
  change (env_or_empty E "SNOWFLAKE_DB" +:+ "." +:+ getenv_default E "SNOWFLAKE_RAW_SCHEMA" "RAW" +:+ ".STOCK_PRICES")
    with (fq_table_of E) in Hout.
  change (env_or_empty E "SNOWFLAKE_DB" +:+ "." +:+ getenv_default E "SNOWFLAKE_RAW_SCHEMA" "RAW")
    with (schema_of E) in Hout.
  unfold connect, bind at 1, bind at 1, db_do at 1 in Hout.
  fold n in Hout. rewrite Hconn in Hout.
  unfold ret at 1 in Hout.
  unfold try_finally, new_cursor, bind at 1, db_do at 1 in Hout.
  cbn [stdout requests db_calls slept db] in Hout.
  rewrite length_app, Nat.add_1_r in Hout. fold n in Hout.
  rewrite Hcur in Hout. unfold ret at 1 in Hout.
  match type of Hout with
  | context [let '(r, w1) := ?m ?w0 in _] =>
    pose proof (stops_try_block (Cur (Conn (connect_args_of E)))
                  (Conn (connect_args_of E)) records w0 I) as Hstops;
      destruct (m w0) as [r w1]
  end.
  cbn [stdout requests db_calls slept db fst snd] in Hstops.
  rewrite !length_app in Hstops. cbn [length] in Hstops.
  replace (length (db_calls w) + 1 + 1)%nat with (n + 2)%nat in Hstops
    by (unfold n; lia).
  fold body stop in Hstops.
  assert (r = match stop with Some (_, e) => Raise e | None => Ok tt end ∧
          db_calls w1 = (db_calls w ++ [Connect (connect_args_of E)]) ++ [Cursor]
                        ++ take k body ∧
          (k ≤ length body)%nat) as (Hr & Hcalls & Hk).
  { unfold k. destruct stop as [[i e]|] eqn:Hstop.
    - destruct Hstops as [-> ->]. apply first_fault_bound in Hstop.
      split; [done|]. split; [by rewrite <- !app_assoc|lia].
    - destruct Hstops as (-> & -> & _). split; [done|].
      split; [by rewrite firstn_all, <- !app_assoc|lia]. }
  clear Hstops. cbn [local] in Hout. rewrite bind_ret in Hout.
  unfold cursor_close, connection_close, bind, db_do in Hout.
  rewrite Hcalls, !length_app, length_take_le in Hout by done.
  cbn [length] in Hout.
  replace (length (db_calls w) + 1 + (1 + k))%nat with (n + 2 + k)%nat in Hout
    by (unfold n; lia).
  destruct (db_fault E (n + 2 + k)) as [e1|].
  { subst out. simpl. split; [|done]. by rewrite <- !app_assoc. }
  cbn [stdout requests db_calls slept db] in Hout.
  rewrite !length_app, length_take_le in Hout by done.
  cbn [length] in Hout.
  replace (length (db_calls w) + 1 + (1 + k) + 1)%nat with (n + 3 + k)%nat in Hout
    by (unfold n; lia).
  destruct (db_fault E (n + 3 + k)) as [e2|];
    subst out; simpl; (split; [by rewrite <- !app_assoc|done]).
Qed.

(** X17. A run that no call fails sends, after the calls already made:
    connect, cursor, the two CREATE ... IF NOT EXISTS statements, then for
    each record in list order the delete of its key and its insert, then
    one commit, and it closes the cursor and then the connection: 2n + 7
    calls for n records. *)
Theorem upsert_call_sequence records w :
  fault_free E → configured E → records ≠ [] →
  (insert_history_into_snowflake E records w).1 = Ok tt ∧
  db_calls (insert_history_into_snowflake E records w).2
  = db_calls w
    ++ [Connect (connect_args_of E); Cursor;
        Execute (CreateSchemaIfNotExists (schema_of E));
        Execute (CreateTableIfNotExists (fq_table_of E))]
    ++ loop_calls (fq_table_of E) records
    ++ [Commit; CursorClose; ConnectionClose] ∧
  length (db_calls (insert_history_into_snowflake E records w).2)
  = (length (db_calls w) + 2 * length records + 7)%nat.
Proof.
  intros Hff Hcfg Hne. rewrite upsert_run by done. simpl.
  split; [done|]. split; [done|].
  rewrite length_app, length_upsert_calls. lia.
Qed.

(** X18. A run that no call fails leaves the schema and the table in
    place, created if they were absent: they are named from SNOWFLAKE_DB
    and SNOWFLAKE_RAW_SCHEMA, with "RAW" when the latter is not set. No
    schema is removed and no other table is changed. *)
Theorem upsert_provisions_schema_and_table records w (db_name : string) :
  fault_free E → configured E → records ≠ [] →
  environ E !! "SNOWFLAKE_DB" = Some db_name →
  let schema_name := default "RAW" (environ E !! "SNOWFLAKE_RAW_SCHEMA") in
  let fq_table := db_name +:+ "." +:+ schema_name +:+ ".STOCK_PRICES" in
  (db_name +:+ "." +:+ schema_name)
    ∈ schemas (db (insert_history_into_snowflake E records w).2) ∧
  schemas (db w) ⊆ schemas (db (insert_history_into_snowflake E records w).2) ∧
  is_Some (tables (db (insert_history_into_snowflake E records w).2) !! fq_table) ∧
  ∀ t, t ≠ fq_table →
    tables (db (insert_history_into_snowflake E records w).2) !! t
    = tables (db w) !! t.
Proof.
  intros Hff Hcfg Hne Hdb schema_name fq_table.
  assert (schema_of E = db_name +:+ "." +:+ schema_name) as Hschema.
  { unfold schema_of, connect_args_of, env_or_empty, getenv_default. simpl.
    by rewrite Hdb. }
  assert (fq_table_of E = fq_table) as Hfq.
  { unfold fq_table_of, connect_args_of, env_or_empty, getenv_default. simpl.
    by rewrite Hdb. }
  rewrite upsert_run by done. simpl. rewrite Hschema, Hfq.
  split; [set_solver|]. split; [set_solver|].
  split; [by rewrite lookup_insert_eq|].
  intros t Ht. by rewrite lookup_insert_ne.
Qed.

End WriterCalls.

Section WriterMoreRuns.
Import Scenario.

Lemma upsert_missing_variable_witness :
  [abc_record] ≠ [] ∧
  required_vars
  = ["SNOWFLAKE_ACCOUNT"; "SNOWFLAKE_USER"; "SNOWFLAKE_PASSWORD"]
    ++ "SNOWFLAKE_ROLE" :: ["SNOWFLAKE_WH"; "SNOWFLAKE_DB"] ∧
  Forall (λ x, is_Some (environ no_role !! x))
    ["SNOWFLAKE_ACCOUNT"; "SNOWFLAKE_USER"; "SNOWFLAKE_PASSWORD"] ∧
  environ no_role !! "SNOWFLAKE_ROLE" = None ∧
  insert_history_into_snowflake no_role [abc_record] fresh
  = (Raise (KeyError "SNOWFLAKE_ROLE"), fresh).
Proof.
  assert ([abc_record] ≠ []) as Hne by done.
  assert (Forall (λ x, is_Some (environ no_role !! x))
            ["SNOWFLAKE_ACCOUNT"; "SNOWFLAKE_USER"; "SNOWFLAKE_PASSWORD"]) as Hpre.
  { repeat constructor; by eexists; vm_compute. }
  assert (environ no_role !! "SNOWFLAKE_ROLE" = None) as Hrole
    by (vm_compute; reflexivity).
  split; [exact Hne|]. split; [reflexivity|]. split; [exact Hpre|].
  split; [exact Hrole|].
  exact (upsert_missing_variable no_role [abc_record] fresh
           ["SNOWFLAKE_ACCOUNT"; "SNOWFLAKE_USER"; "SNOWFLAKE_PASSWORD"]
           ["SNOWFLAKE_WH"; "SNOWFLAKE_DB"] "SNOWFLAKE_ROLE" Hne eq_refl
           Hpre Hrole).
Defined.

Lemma upsert_connect_failure_witness :
  [abc_record] ≠ [] ∧
  configured (env_with rate_limited connect_fails) ∧
  db_fault (env_with rate_limited connect_fails) 0 = Some (DatabaseError 250001) ∧
  insert_history_into_snowflake (env_with rate_limited connect_fails)
    [abc_record] fresh
  = (Raise (DatabaseError 250001),
     World [] []
       [Connect (ConnectArgs "acct" "etl" "secret" "LOADER" "WH" "DBT_DEMO" "RAW")]
       0 (Store ∅ ∅)).
Proof.
  assert ([abc_record] ≠ []) as Hne by done.
  split; [exact Hne|]. split; [apply env_with_configured|]. split; [reflexivity|].
  exact (upsert_connect_failure (env_with rate_limited connect_fails)
           [abc_record] fresh _ Hne (env_with_configured _ _) eq_refl).
Defined.

Lemma upsert_table_after_run_witness :
  fault_free abc_env ∧ configured abc_env ∧
  row_values <$> stock_prices abc_env
    (insert_history_into_snowflake abc_env [abc_record; abc_record] seeded).2
  = [xyz_record; abc_record].
Proof.
  split; [apply env_with_fault_free|]. split; [apply env_with_configured|].
  rewrite (upsert_table_after_run abc_env [abc_record; abc_record] seeded
             (env_with_fault_free _) (env_with_configured _ _)).
  vm_compute. reflexivity.
Defined.

Lemma upsert_twice_same_table_witness :
  fault_free abc_env ∧ configured abc_env ∧
  row_values <$> stock_prices abc_env
    (insert_history_into_snowflake abc_env [abc_record; xyz_record]
       (insert_history_into_snowflake abc_env [abc_record; xyz_record] seeded).2).2
  = row_values <$> stock_prices abc_env
      (insert_history_into_snowflake abc_env [abc_record; xyz_record] seeded).2.
Proof.
  split; [apply env_with_fault_free|]. split; [apply env_with_configured|].
  exact (upsert_twice_same_table abc_env [abc_record; xyz_record] seeded
           (env_with_fault_free _) (env_with_configured _ _)).
Defined.

Lemma upsert_batches_compose_witness :
  fault_free abc_env ∧ configured abc_env ∧
  row_values <$> stock_prices abc_env
    (insert_history_into_snowflake abc_env [abc_record]
       (insert_history_into_snowflake abc_env [abc_stale; xyz_record] fresh).2).2
  = row_values <$> stock_prices abc_env
      (insert_history_into_snowflake abc_env
         ([abc_stale; xyz_record] ++ [abc_record]) fresh).2.
Proof.
  split; [apply env_with_fault_free|]. split; [apply env_with_configured|].
  exact (upsert_batches_compose abc_env [abc_stale; xyz_record] [abc_record] fresh
           (env_with_fault_free _) (env_with_configured _ _)).
Defined.

Lemma upsert_releases_what_it_opened_witness :
  [abc_record] ≠ [] ∧
  configured (env_with rate_limited insert_fails) ∧
  db_fault (env_with rate_limited insert_fails) 0 = None ∧
  db_fault (env_with rate_limited insert_fails) 1 = None ∧
  db_calls (insert_history_into_snowflake (env_with rate_limited insert_fails)
              [abc_record] fresh).2
  = [Connect (ConnectArgs "acct" "etl" "secret" "LOADER" "WH" "DBT_DEMO" "RAW");
     Cursor;
     Execute (CreateSchemaIfNotExists "DBT_DEMO.RAW");
     Execute (CreateTableIfNotExists "DBT_DEMO.RAW.STOCK_PRICES");
     Execute (DeleteFrom "DBT_DEMO.RAW.STOCK_PRICES" (Date 2024 1 2) "ABC");
     Execute (InsertInto "DBT_DEMO.RAW.STOCK_PRICES" abc_record);
     CursorClose; ConnectionClose] ∧
  (insert_history_into_snowflake (env_with rate_limited insert_fails)
     [abc_record] fresh).1
  = Raise (DatabaseError 100072).
Proof.
  assert ([abc_record] ≠ []) as Hne by done.
  split; [exact Hne|]. split; [apply env_with_configured|].
  split; [reflexivity|]. split; [reflexivity|].
  exact (upsert_releases_what_it_opened (env_with rate_limited insert_fails)
           [abc_record] fresh Hne (env_with_configured _ _) eq_refl eq_refl).
Defined.

(** The commit is accepted and [cs.close()] raises: the connection is not
    closed, and the exception of the close is the outcome. *)
Example upsert_cursor_close_raises :
  insert_history_into_snowflake (env_with rate_limited close_fails)
    [abc_record; xyz_record] fresh
  = (Raise (DatabaseError 250002),
     World [] []
       [Connect (ConnectArgs "acct" "etl" "secret" "LOADER" "WH" "DBT_DEMO" "RAW");
        Cursor;
        Execute (CreateSchemaIfNotExists "DBT_DEMO.RAW");
        Execute (CreateTableIfNotExists "DBT_DEMO.RAW.STOCK_PRICES");
        Execute (DeleteFrom "DBT_DEMO.RAW.STOCK_PRICES" (Date 2024 1 2) "ABC");
        Execute (InsertInto "DBT_DEMO.RAW.STOCK_PRICES" abc_record);
        Execute (DeleteFrom "DBT_DEMO.RAW.STOCK_PRICES" (Date 2024 1 2) "XYZ");
        Execute (InsertInto "DBT_DEMO.RAW.STOCK_PRICES" xyz_record);
        Commit; CursorClose]
       0
       (Store {["DBT_DEMO.RAW"]}
          {["DBT_DEMO.RAW.STOCK_PRICES" :=
              [StoredRow abc_record 5; StoredRow xyz_record 7]]})).
Proof. vm_compute; reflexivity. Qed.

Lemma upsert_call_sequence_witness :
  fault_free abc_env ∧ configured abc_env ∧ [abc_record; xyz_record] ≠ [] ∧
  length (db_calls (insert_history_into_snowflake abc_env
                      [abc_record; xyz_record] fresh).2) = 11%nat.
Proof.
  assert ([abc_record; xyz_record] ≠ []) as Hne by done.
  split; [apply env_with_fault_free|]. split; [apply env_with_configured|].
  split; [exact Hne|].
  destruct (upsert_call_sequence abc_env [abc_record; xyz_record] fresh
              (env_with_fault_free _) (env_with_configured _ _) Hne)
    as (_ & _ & Hlen).
  exact Hlen.
Defined.

Lemma upsert_provisions_schema_and_table_witness :
  fault_free abc_env ∧ configured abc_env ∧ [abc_record] ≠ [] ∧
  environ abc_env !! "SNOWFLAKE_DB" = Some "DBT_DEMO" ∧
  environ abc_env !! "SNOWFLAKE_RAW_SCHEMA" = None ∧
  ("DBT_DEMO" +:+ "." +:+ "RAW")
    ∈ schemas (db (insert_history_into_snowflake abc_env [abc_record] fresh).2) ∧
  is_Some (tables (db (insert_history_into_snowflake abc_env [abc_record] fresh).2)
             !! ("DBT_DEMO" +:+ "." +:+ "RAW" +:+ ".STOCK_PRICES")).
Proof.
  assert ([abc_record] ≠ []) as Hne by done.
  assert (environ abc_env !! "SNOWFLAKE_DB" = Some "DBT_DEMO") as Hdb
    by (vm_compute; reflexivity).
  split; [apply env_with_fault_free|]. split; [apply env_with_configured|].
  split; [exact Hne|]. split; [exact Hdb|]. split; [vm_compute; reflexivity|].
  destruct (upsert_provisions_schema_and_table abc_env [abc_record] fresh
              "DBT_DEMO" (env_with_fault_free _) (env_with_configured _ _) Hne Hdb)
    as (Hschema & _ & Htable & _).
  split; [exact Hschema|exact Htable].
Defined.

End WriterMoreRuns.
